(** * The tssegmenter driver (main.go)

    A shallow embedding of the command-line driver of go-ts-segmenter and
    the properties of its start-up sequence and of its ingest loop.

    The driver parses its flags, configures the logger, validates the PID
    mode against the init-data mode, builds at most one uploader, builds
    the manifest generator, opens the input (standard input or one TCP
    connection) and then forwards every read to the manifest generator until
    the input ends.

    Conventions of the embedding:
    - a Go [int] is a [Z]; the driver does no arithmetic on its integers, so
      no wrap-around is involved; the one [float64] is only passed on;
    - the flag variables become the fields of one record [Config];
    - the operating system and the network are an explicit [Env];
    - [os.Exit], a run-time panic and a read that has not returned yet end a
      computation in the monad [Proc], which also records the calls the
      driver makes, in order;
    - the manifest generator is an interface ([Pipeline]): its package is
      not part of the driver, which only calls [New], [AddData] and
      [Close]. *)

From Stdlib Require Import ZArith List String Bool Lia SpecFloat.
From Stdlib Require Import Strings.Byte.
From Stdlib Require Import Decimal DecimalString DecimalPos DecimalZ.
Import ListNotations.

Local Open Scope Z_scope.
Local Open Scope list_scope.


(** ** Flags *)

(** A Go [float64]: a binary64 number, by its sign, mantissa and exponent. *)
Definition float64 : Type := spec_float.

(** The package-level flag variables of main.go, after [flag.Parse]. *)
Record Config : Type := mkConfig {
  verbose : bool;
  baseOutPath : string;
  chunkBaseFilename : string;
  chunkListFilename : string;
  fileNumberLength : Z;
  targetSegmentDurS : float64;
  liveWindowSize : Z;
  lhlsAdvancedChunks : Z;
  manifestTypeInt : Z;
  autoPID : bool;
  videoPID : Z;
  audioPID : Z;
  chunkInitType : Z;
  mediaDestinationType : Z;
  manifestDestinationType : Z;
  httpScheme : string;
  httpHost : string;
  logPath : string;
  httpMaxRetries : Z;
  initialHTTPRetryDelay : Z;
  httpsInsecure : bool;
  inputType : Z;
  localPort : Z;
  awsID : string;
  awsSecret : string;
  awsRegion : string;
  s3Bucket : string;
  s3UploadTimeOut : Z;
  s3IsPublicRead : bool
}.

Definition readBufferSize : nat := 128.

(** ** The packages the driver imports *)

Module manifestgenerator.

(** [ChunkInitTypes(x)]: a conversion between integer types, as are
    [OutputTypes(x)] and [ManifestTypes(x)] below. *)
Definition ChunkInitTypes (x : Z) : Z := x.

(** Modelled from the spec: the two constants of type ChunkInitTypes that
    [main] names are declared in package manifestgenerator, which is not
    among the sources of the driver.  The init-data modes are none /
    init-segment / per-chunk, numbered as in the usage text of flag initType
    (0- No ini data, 1- Init segment, 2- At the beginning of each chunk),
    whose default is [ChunkInitStart]. *)
Definition ChunkNoIni : Z := 0.
Definition ChunkInitStart : Z := 2.

End manifestgenerator.

Module hls.

Definition OutputTypes (x : Z) : Z := x.
Definition ManifestTypes (x : Z) : Z := x.

(** Modelled from the spec: the two constants of package hls that [main]
    names; the package is not among the sources of the driver.  The
    manifest types are VOD / live-event / live-window and the destination
    kinds none / local file / HTTP / object storage, numbered as in the
    usage texts of flags manifestType (2- Live sliding window) and
    manifestDestinationType (1- File + flag indicator). *)
Definition LiveWindow : Z := 2.
Definition HlsOutputModeFile : Z := 1.

End hls.

Module mediachunk.

Definition OutputTypes (x : Z) : Z := x.

(** Modelled from the spec: the constant of package mediachunk that [main]
    names; the package is not among the sources of the driver.  Numbered as
    in the usage text of flag mediaDestinationType (1- File + flag
    indicator). *)
Definition ChunkOutputModeFile : Z := 1.

End mediachunk.

(** The default value of every flag.  The target duration is 4.0, that is
    2^52 * 2^-50. *)
Definition defaults : Config := {|
  verbose := false;
  baseOutPath := "./results";
  chunkBaseFilename := "chunk_";
  chunkListFilename := "chunklist.m3u8";
  fileNumberLength := 5;
  targetSegmentDurS := S754_finite false 4503599627370496 (-50);
  liveWindowSize := 3;
  lhlsAdvancedChunks := 0;
  manifestTypeInt := hls.LiveWindow;
  autoPID := true;
  videoPID := -1;
  audioPID := -1;
  chunkInitType := manifestgenerator.ChunkInitStart;
  mediaDestinationType := 1;
  manifestDestinationType := 1;
  httpScheme := "http";
  httpHost := "localhost:9094";
  logPath := "";
  httpMaxRetries := 40;
  initialHTTPRetryDelay := 5;
  httpsInsecure := false;
  inputType := 1;
  localPort := 2002;
  awsID := "";
  awsSecret := "";
  awsRegion := "";
  s3Bucket := "";
  s3UploadTimeOut := 10000;
  s3IsPublicRead := false
|}.

(** ** Logger *)

(** The levels of a logrus logger; a new logger is at [InfoLevel]. *)
Inductive Level : Type :=
| PanicLevel | FatalLevel | ErrorLevel | WarnLevel | InfoLevel | DebugLevel
| TraceLevel.

(** What [configureLogger] leaves in the logger it returns: the level and
    whether the output goes to a log file besides standard output. *)
Record Logger : Type := mkLogger {
  lg_level : Level;
  lg_file : option string
}.

(** ** Uploaders *)

(** An uploader is the value its constructor builds from its arguments. *)
Record HTTPUploader : Type := mkHTTPUploader {
  hu_log : Logger;
  hu_insecure : bool;
  hu_scheme : string;
  hu_host : string;
  hu_maxRetries : Z;
  hu_initialRetryDelay : Z
}.

Record AWSLocalCreds : Type := mkAWSLocalCreds {
  Valid : bool;
  AWSId : string;
  AWSSecret : string
}.

Record S3Uploader : Type := mkS3Uploader {
  s3_log : Logger;
  s3_bucket : string;
  s3_region : string;
  s3_uploadTimeOut : Z;
  s3_isPublicRead : bool;
  s3_creds : AWSLocalCreds
}.

(** ** The manifest generator, as the driver sees it *)

(** The arguments of [manifestgenerator.New], in the order of the call. *)
Record MGArgs : Type := mkMGArgs {
  arg_log : Logger;
  arg_chunkOutputType : Z;
  arg_hlsOutputType : Z;
  arg_baseOutPath : string;
  arg_chunkBaseFilename : string;
  arg_chunkListFilename : string;
  arg_fileNumberLength : Z;
  arg_targetSegmentDurS : float64;
  arg_chunkInitType : Z;
  arg_autoPIDs : bool;
  arg_videoPID : Z;
  arg_audioPID : Z;
  arg_manifestType : Z;
  arg_liveWindowSize : Z;
  arg_lhlsAdvancedChunks : Z;
  arg_httpUploader : option HTTPUploader;
  arg_s3Uploader : option S3Uploader
}.

(** Modelled from the spec: the delivery of one artifact (a chunk or a
    manifest) to the sink, which the manifest generator performs inside
    [AddData] and [Close]; a delivery that exhausted its retries is a failed
    emission.  The uploaders and the manifest generator are not among the
    sources of the driver. *)
Record Emission : Type := mkEmission {
  em_name : string;
  em_delivered : bool
}.

(** The three operations the driver calls.  [AddData] and [Close] are
    statements in main.go: nothing they return reaches the driver, so the
    emissions they make are only recorded in the trace. *)
Class Pipeline (MG : Type) : Type := {
  New : MGArgs -> MG;
  AddData : MG -> list byte -> MG * list Emission;
  Close : MG -> MG * list Emission
}.

(** ** Input *)

Inductive IOError : Type :=
| EOF
| ErrOther (msg : string).

(** What one call [r.Read(buf[:cap(buf)])] returns: the bytes [buf[:n]], at
    most [readBufferSize] of them, and the error. *)
Record ReadResult : Type := mkRead {
  rr_bytes : list byte;
  rr_err : option IOError
}.

Definition Listener : Type := nat.
Definition Conn : Type := nat.

(** What the buffered reader wraps: standard input, or the connection that
    [Accept] returned, which is nil ([None]) when [Accept] failed. *)
Inductive InputSrc : Type :=
| Stdin
| TCPConn (c : option Conn).

(** The world outside the process. *)
Record Env : Type := mkEnv {
  (** [os.OpenFile] on the log path: [true] when it returns no error *)
  openFile : string -> bool;
  (** [net.Listen network address]: [None] when it returns an error, and
      then the listener it returns is nil *)
  netListen : string -> string -> option Listener;
  (** the first [Accept] on a listener: [None] when it returns an error *)
  lnAccept : Listener -> option Conn;
  (** what the successive reads of the buffered reader return *)
  connReads : Conn -> list ReadResult;
  stdinReads : list ReadResult
}.

Record Reader : Type := mkReader {
  rd_src : InputSrc;
  rd_pending : list ReadResult
}.

(** ** Processes *)

(** How a run ends: [os.Exit code], a run-time panic, or, when the input
    has given all the reads of the environment and none ended the loop, the
    next read has not returned. *)
Inductive Outcome : Type :=
| Exited (code : Z)
| Panicked
| Blocked.

(** The calls of the driver that reach outside it. *)
Inductive Event : Type :=
| EvOpenFile (path : string)
| EvMkdirAll (path : string) (perm : Z)
| EvNewHTTPUploader (u : HTTPUploader)
| EvNewS3Uploader (u : S3Uploader)
| EvNewMG (a : MGArgs)
| EvListen (network address : string)
| EvAccept (ln : Listener)
| EvRead (src : InputSrc) (r : ReadResult)
| EvAddData (b : list byte)
| EvEmission (e : Emission)
| EvClose.

Inductive Res (A : Type) : Type :=
| Ret (a : A)
| Halt (o : Outcome).

Arguments Ret {A} a.
Arguments Halt {A} o.

(** A computation: the trace of its calls and its result. *)
Definition Proc (A : Type) : Type := (list Event * Res A)%type.

Definition ret {A} (a : A) : Proc A := ([], Ret a).

Definition bind {A B} (c : Proc A) (k : A -> Proc B) : Proc B :=
  match c with
  | (t, Ret a) => let (t', r) := k a in (t ++ t', r)
  | (t, Halt o) => (t, Halt o)
  end.

Definition emit (e : Event) : Proc unit := ([e], Ret tt).
Definition emits (es : list Event) : Proc unit := (es, Ret tt).
Definition halt {A} (o : Outcome) : Proc A := ([], Halt o).

(** [os.Exit(code)] *)
Definition osExit {A} (code : Z) : Proc A := halt (Exited code).

Declare Scope proc_scope.
Delimit Scope proc_scope with proc.
Notation "x <- c ;; k" := (bind c (fun x => k))
  (at level 61, c at next level, right associativity) : proc_scope.
Notation "c ;; k" := (bind c (fun _ => k))
  (at level 61, right associativity) : proc_scope.
Local Open Scope proc_scope.

Definition trace {A} (c : Proc A) : list Event := fst c.
Definition result {A} (c : Proc A) : Res A := snd c.

(** The outcome of a computation that has ended the process. *)
Definition outcome {A} (c : Proc A) : option Outcome :=
  match snd c with
  | Ret _ => None
  | Halt o => Some o
  end.

(** ** The driver *)

(** [strconv.Itoa] *)
Definition Itoa (z : Z) : string := NilZero.string_of_int (Z.to_int z).

Definition isEOF (err : option IOError) : bool :=
  match err with
  | Some EOF => true
  | _ => false
  end.

Definition isNil (err : option IOError) : bool :=
  match err with
  | None => true
  | Some _ => false
  end.

(** [configureLogger]: with a log path, the log file is opened, and the
    process exits with -1 when that fails. *)
Definition configureLogger (env : Env) (verbose : bool) (logPath : string)
  : Proc Logger :=
  let level := if verbose then ErrorLevel else InfoLevel in
  if negb (String.eqb logPath "") then
    emit (EvOpenFile logPath) ;;
    if openFile env logPath
    then ret {| lg_level := level; lg_file := Some logPath |}
    else osExit (-1)
  else ret {| lg_level := level; lg_file := None |}.

Definition isHTTPOut (cfg : Config) : bool :=
  if (mediaDestinationType cfg =? 2) || (mediaDestinationType cfg =? 3)
     || (manifestDestinationType cfg =? 2)
  then true
  else false.

Definition isS3Out (cfg : Config) : bool :=
  if (mediaDestinationType cfg =? 4) || (manifestDestinationType cfg =? 3)
  then true
  else false.

(** The credentials given to the S3 uploader: the zero value, unless both
    the id and the secret are set. *)
Definition awsCredsOf (cfg : Config) : AWSLocalCreds :=
  if negb (String.eqb (awsID cfg) "") && negb (String.eqb (awsSecret cfg) "")
  then {| Valid := true; AWSId := awsID cfg; AWSSecret := awsSecret cfg |}
  else {| Valid := false; AWSId := ""; AWSSecret := "" |}.

(** The two uploader variables of [main], nil ([None]) unless built. *)
Definition newUploaders (cfg : Config) (log : Logger)
  : Proc (option HTTPUploader * option S3Uploader) :=
  if isHTTPOut cfg then
    let httpUploaderTmp :=
      {| hu_log := log; hu_insecure := httpsInsecure cfg;
         hu_scheme := httpScheme cfg; hu_host := httpHost cfg;
         hu_maxRetries := httpMaxRetries cfg;
         hu_initialRetryDelay := initialHTTPRetryDelay cfg |} in
    emit (EvNewHTTPUploader httpUploaderTmp) ;;
    ret (Some httpUploaderTmp, None)
  else if isS3Out cfg then
    let s3UploaderTmp :=
      {| s3_log := log; s3_bucket := s3Bucket cfg; s3_region := awsRegion cfg;
         s3_uploadTimeOut := s3UploadTimeOut cfg;
         s3_isPublicRead := s3IsPublicRead cfg;
         s3_creds := awsCredsOf cfg |} in
    emit (EvNewS3Uploader s3UploaderTmp) ;;
    ret (None, Some s3UploaderTmp)
  else ret (None, None).

(** The argument list of the call of [manifestgenerator.New] in [main]. *)
Definition newArgs (cfg : Config) (log : Logger)
    (httpUploader : option HTTPUploader) (s3Uploader : option S3Uploader)
  : MGArgs :=
  {| arg_log := log;
     arg_chunkOutputType := mediachunk.OutputTypes (mediaDestinationType cfg);
     arg_hlsOutputType := hls.OutputTypes (manifestDestinationType cfg);
     arg_baseOutPath := baseOutPath cfg;
     arg_chunkBaseFilename := chunkBaseFilename cfg;
     arg_chunkListFilename := chunkListFilename cfg;
     arg_fileNumberLength := fileNumberLength cfg;
     arg_targetSegmentDurS := targetSegmentDurS cfg;
     arg_chunkInitType := manifestgenerator.ChunkInitTypes (chunkInitType cfg);
     arg_autoPIDs := autoPID cfg;
     arg_videoPID := -1;
     arg_audioPID := -1;
     arg_manifestType := hls.ManifestTypes (manifestTypeInt cfg);
     arg_liveWindowSize := liveWindowSize cfg;
     arg_lhlsAdvancedChunks := lhlsAdvancedChunks cfg;
     arg_httpUploader := httpUploader;
     arg_s3Uploader := s3Uploader |}.

(** [bufio.NewReader]: the reads of the reader are those the environment
    gives for its source. *)
Definition bufioNewReader (env : Env) (src : InputSrc) : Reader :=
  {| rd_src := src;
     rd_pending := match src with
                   | Stdin => stdinReads env
                   | TCPConn (Some c) => connReads env c
                   | TCPConn None => []
                   end |}.

(** The creation of the input reader.  Both errors are dropped ([ln, _] and
    [conn, _]).  When [net.Listen] fails, [ln] is a nil interface and the
    call [ln.Accept()] panics. *)
Definition openInput (cfg : Config) (env : Env) : Proc Reader :=
  if inputType cfg =? 2 then
    let address := String.append ":" (Itoa (localPort cfg)) in
    emit (EvListen "tcp" address) ;;
    match netListen env "tcp" address with
    | None => halt Panicked
    | Some ln =>
      emit (EvAccept ln) ;;
      ret (bufioNewReader env (TCPConn (lnAccept env ln)))
    end
  else ret (bufioNewReader env Stdin).

Section Driver.

Context {MG : Type} {P : Pipeline MG}.

(** The statements of [main] up to the construction of the manifest
    generator. *)
Definition startup (cfg : Config) (env : Env) : Proc MG :=
  log <- configureLogger env (verbose cfg) (logPath cfg) ;;
  if Bool.eqb (autoPID cfg) false
     && negb (manifestgenerator.ChunkInitTypes (chunkInitType cfg)
              =? manifestgenerator.ChunkNoIni)
  then osExit 1
  else
    let chunkOutputType := mediachunk.OutputTypes (mediaDestinationType cfg) in
    let hlsOutputType := hls.OutputTypes (manifestDestinationType cfg) in
    (if (chunkOutputType =? mediachunk.ChunkOutputModeFile)
        || (hlsOutputType =? hls.HlsOutputModeFile)
     then emit (EvMkdirAll (baseOutPath cfg) 484)
     else ret tt) ;;
    up <- newUploaders cfg log ;;
    let a := newArgs cfg log (fst up) (snd up) in
    emit (EvNewMG a) ;;
    ret (New a).

(** The [for] loop of [main], on the reads the reader still has to
    return.  [Ret] is the [break] after [mg.Close()].  In the branch of a
    read error, [log.Fatal] ends the process with status 1, as the
    [os.Exit(1)] that follows it would.  [AddData] is given the bytes
    [buf[:n]] as they are at the call.  The log lines are left out: but for
    [log.Fatal] they do not change what [main] does next. *)
Fixpoint loop (src : InputSrc) (pending : list ReadResult) (mg : MG)
  : Proc MG :=
  match pending with
  | [] => halt Blocked
  | rd :: pending' =>
    emit (EvRead src rd) ;;
    let n := List.length (rr_bytes rd) in
    let err := rr_err rd in
    if (n =? 0)%nat && isEOF err then
      emit EvClose ;;
      let (mg', es) := Close mg in
      emits (map EvEmission es) ;;
      ret mg'
    else if negb (isNil err) && negb (isEOF err) then
      osExit 1
    else
      emit (EvAddData (rr_bytes rd)) ;;
      let (mg', es) := AddData mg (rr_bytes rd) in
      emits (map EvEmission es) ;;
      loop src pending' mg'
  end.

(** The loop on a reader.  A reader built on a nil connection panics in
    its first read. *)
Definition ingest (r : Reader) (mg : MG) : Proc MG :=
  match rd_src r with
  | TCPConn None => halt Panicked
  | src => loop src (rd_pending r) mg
  end.

(** [main]: the start-up, the creation of the input reader, the loop, and
    [os.Exit(0)] after the loop. *)
Definition main (cfg : Config) (env : Env) : Proc unit :=
  mg <- startup cfg env ;;
  r <- openInput cfg env ;;
  ingest r mg ;;
  osExit 0.

End Driver.

(** ** Observations *)

(** The three cases of the loop body, as tests on the read. *)
Definition stopsAtEOF (rd : ReadResult) : bool :=
  (List.length (rr_bytes rd) =? 0)%nat && isEOF (rr_err rd).

Definition isReadFailure (rd : ReadResult) : bool :=
  negb (isNil (rr_err rd)) && negb (isEOF (rr_err rd)).

Definition isData (rd : ReadResult) : bool :=
  negb (stopsAtEOF rd) && negb (isReadFailure rd).

(** The slices given to [AddData], in order. *)
Definition forwarded (t : list Event) : list (list byte) :=
  flat_map (fun e => match e with EvAddData b => [b] | _ => [] end) t.

(** The reads made, in order, and the source of each. *)
Definition readsOf (t : list Event) : list (InputSrc * ReadResult) :=
  flat_map (fun e => match e with EvRead s r => [(s, r)] | _ => [] end) t.

(** The emissions made, in order. *)
Definition emissionsOf (t : list Event) : list Emission :=
  flat_map (fun e => match e with EvEmission x => [x] | _ => [] end) t.

Definition isClose (e : Event) : bool :=
  match e with EvClose => true | _ => false end.

(** The number of calls of [Close]. *)
Definition closes (t : list Event) : nat := List.length (filter isClose t).

Definition isNewUploader (e : Event) : bool :=
  match e with
  | EvNewHTTPUploader _ | EvNewS3Uploader _ => true
  | _ => false
  end.

(** The number of uploaders built. *)
Definition uploadersBuilt (t : list Event) : nat :=
  List.length (filter isNewUploader t).

(** The events of the three parts of [main]. *)
Definition isStartupEv (e : Event) : bool :=
  match e with
  | EvOpenFile _ | EvMkdirAll _ _ | EvNewHTTPUploader _ | EvNewS3Uploader _
  | EvNewMG _ => true
  | _ => false
  end.

Definition isInputEv (e : Event) : bool :=
  match e with
  | EvListen _ _ | EvAccept _ => true
  | _ => false
  end.

Definition isLoopEv (e : Event) : bool :=
  match e with
  | EvRead _ _ | EvAddData _ | EvEmission _ | EvClose => true
  | _ => false
  end.

(** The test of the start-up validation. *)
Definition rejected (cfg : Config) : bool :=
  Bool.eqb (autoPID cfg) false
  && negb (manifestgenerator.ChunkInitTypes (chunkInitType cfg)
           =? manifestgenerator.ChunkNoIni).

(** The logger [configureLogger] returns, when it returns. *)
Definition loggerOf (cfg : Config) : Logger :=
  {| lg_level := if verbose cfg then ErrorLevel else InfoLevel;
     lg_file := if String.eqb (logPath cfg) "" then None
                else Some (logPath cfg) |}.

(** There is no log file to open, or it opens. *)
Definition logOpens (env : Env) (cfg : Config) : bool :=
  String.eqb (logPath cfg) "" || openFile env (logPath cfg).

Definition logTrace (cfg : Config) : list Event :=
  if String.eqb (logPath cfg) "" then [] else [EvOpenFile (logPath cfg)].

Definition mkdirTrace (cfg : Config) : list Event :=
  if (mediachunk.OutputTypes (mediaDestinationType cfg)
      =? mediachunk.ChunkOutputModeFile)
     || (hls.OutputTypes (manifestDestinationType cfg)
         =? hls.HlsOutputModeFile)
  then [EvMkdirAll (baseOutPath cfg) 484]
  else [].

(** The exit of [main] after the loop. *)
Definition afterLoop {A} (r : Res A) : Res unit :=
  match r with
  | Ret _ => Halt (Exited 0)
  | Halt o => Halt o
  end.

(** How the loop ends, read off the reads alone: at the first read that is
    not data. *)
Fixpoint loopEnd (pending : list ReadResult) : option Outcome :=
  match pending with
  | [] => Some Blocked
  | rd :: pending' =>
    if stopsAtEOF rd then None
    else if isReadFailure rd then Some (Exited 1)
    else loopEnd pending'
  end.

(** The reads the loop makes: up to and with the first that is not data. *)
Fixpoint consumed (pending : list ReadResult) : list ReadResult :=
  match pending with
  | [] => []
  | rd :: pending' => if isData rd then rd :: consumed pending' else [rd]
  end.

Section Feeding.

Context {MG : Type} {P : Pipeline MG}.

(** The trace and the manifest generator after the loop went through
    the reads [pre], when all of them are data. *)
Fixpoint feed (src : InputSrc) (pre : list ReadResult) (mg : MG)
  : list Event * MG :=
  match pre with
  | [] => ([], mg)
  | rd :: pre' =>
    let (mg', es) := AddData mg (rr_bytes rd) in
    let (t, mg'') := feed src pre' mg' in
    (EvRead src rd :: EvAddData (rr_bytes rd) :: map EvEmission es ++ t,
     mg'')
  end.

End Feeding.

(** ** Particular pipelines, configurations and environments *)

(** A manifest generator that keeps the slices it was given and delivers
    nothing. *)
Definition recorder : Pipeline (list (list byte)) := {|
  New := fun _ => [];
  AddData := fun mg b => (mg ++ [b], []);
  Close := fun mg => (mg, [])
|}.

(** A manifest generator on a stuck sink: every call tries one delivery,
    which fails. *)
Definition lossy : Pipeline nat := {|
  New := fun _ => O;
  AddData := fun mg _ =>
    (S mg, [ {| em_name := "chunk"; em_delivered := false |} ]);
  Close := fun mg =>
    (mg, [ {| em_name := "chunklist.m3u8"; em_delivered := false |} ])
|}.

(** The defaults, with the flags -apids, -vpid, -apid, -initType,
    -mediaDestinationType, -manifestDestinationType and -inputType set. *)
Definition withFlags (apids : bool) (vpid apid initType : Z)
    (mediaDst manifestDst input : Z) : Config :=
  {| verbose := verbose defaults;
     baseOutPath := baseOutPath defaults;
     chunkBaseFilename := chunkBaseFilename defaults;
     chunkListFilename := chunkListFilename defaults;
     fileNumberLength := fileNumberLength defaults;
     targetSegmentDurS := targetSegmentDurS defaults;
     liveWindowSize := liveWindowSize defaults;
     lhlsAdvancedChunks := lhlsAdvancedChunks defaults;
     manifestTypeInt := manifestTypeInt defaults;
     autoPID := apids;
     videoPID := vpid;
     audioPID := apid;
     chunkInitType := initType;
     mediaDestinationType := mediaDst;
     manifestDestinationType := manifestDst;
     httpScheme := httpScheme defaults;
     httpHost := httpHost defaults;
     logPath := logPath defaults;
     httpMaxRetries := httpMaxRetries defaults;
     initialHTTPRetryDelay := initialHTTPRetryDelay defaults;
     httpsInsecure := httpsInsecure defaults;
     inputType := input;
     localPort := localPort defaults;
     awsID := awsID defaults;
     awsSecret := awsSecret defaults;
     awsRegion := awsRegion defaults;
     s3Bucket := s3Bucket defaults;
     s3UploadTimeOut := s3UploadTimeOut defaults;
     s3IsPublicRead := s3IsPublicRead defaults |}.

(** -apids=false -initType=0: manual PIDs with no init data. *)
Definition manualNoIni : Config := withFlags false 256 257 0 1 1 1.

(** -apids=false: manual PIDs with init data at the start of each chunk. *)
Definition manualInitStart : Config := withFlags false 256 257 2 1 1 1.

(** -mediaDestinationType=4 -manifestDestinationType=2: chunks to S3, the
    manifest to HTTP. *)
Definition s3MediaHTTPManifest : Config := withFlags true (-1) (-1) 2 4 2 1.

(** -inputType=2 *)
Definition tcpInput : Config := withFlags true (-1) (-1) 2 1 1 2.

(** An environment with the given reads on standard input, where no port
    can be listened on. *)
Definition stdinEnv (rs : list ReadResult) : Env :=
  {| openFile := fun _ => true;
     netListen := fun _ _ => None;
     lnAccept := fun _ => None;
     connReads := fun _ => [];
     stdinReads := rs |}.

(** An environment where listening gives listener 1, whose first connection
    is [conn], with the given reads on connection 7. *)
Definition tcpEnv (conn : option Conn) (rs : list ReadResult) : Env :=
  {| openFile := fun _ => true;
     netListen := fun _ _ => Some 1%nat;
     lnAccept := fun _ => conn;
     connReads := fun c => if Nat.eqb c 7 then rs else [];
     stdinReads := [] |}.

Definition dataRead (b : list byte) : ReadResult :=
  {| rr_bytes := b; rr_err := None |}.

(** A read that returns zero bytes and [io.EOF]. *)
Definition eofRead : ReadResult := {| rr_bytes := []; rr_err := Some EOF |}.

(** A read that returns bytes together with [io.EOF]. *)
Definition lastRead (b : list byte) : ReadResult :=
  {| rr_bytes := b; rr_err := Some EOF |}.

(** A read that returns zero bytes and another error. *)
Definition failedRead : ReadResult :=
  {| rr_bytes := []; rr_err := Some (ErrOther "read: connection reset") |}.

(** Three reads of data, the last of them with [io.EOF], then the end. *)
Definition sampleReads : list ReadResult :=
  [ dataRead [x47; x40; x00]%byte; dataRead []; lastRead [x47; x1f]%byte ].

(** A read the loop forwards: it returns no error, or it returns bytes
    together with [io.EOF]. *)
Definition returnsData (rd : ReadResult) : Prop :=
  rr_err rd = None \/ (rr_err rd = Some EOF /\ rr_bytes rd <> []).

(** A read that returns zero bytes and [io.EOF]. *)
Definition returnsEOF (rd : ReadResult) : Prop :=
  rr_bytes rd = [] /\ rr_err rd = Some EOF.

(** A read that returns an error other than [io.EOF]. *)
Definition returnsFailure (rd : ReadResult) : Prop :=
  exists msg, rr_err rd = Some (ErrOther msg).

(** ** Particular runs *)

(** Manual PIDs with init data in every chunk, on an input that ends at
    once. *)
Definition manualInitStartRun : Proc unit :=
  main (P := recorder) manualInitStart (stdinEnv [eofRead]).

(** Manual PIDs 256 and 257 with no init data, on the same input. *)
Definition manualNoIniRun : Proc unit :=
  main (P := recorder) manualNoIni (stdinEnv [eofRead]).

(** The defaults, on an input whose second read fails. *)
Definition failedReadRun : Proc unit :=
  main (P := recorder) defaults
    (stdinEnv [dataRead [x47]%byte; failedRead; eofRead]).

(** The defaults, on an input that ends at once. *)
Definition defaultRun : Proc unit :=
  main (P := recorder) defaults (stdinEnv [eofRead]).

(** The HTTP uploader built from the default flags. *)
Definition defaultHTTPUploader : HTTPUploader :=
  {| hu_log := loggerOf defaults;
     hu_insecure := false;
     hu_scheme := "http";
     hu_host := "localhost:9094";
     hu_maxRetries := 40;
     hu_initialRetryDelay := 5 |}.

(** Chunks to S3 and the manifest to HTTP, on an input that ends at
    once. *)
Definition s3MediaHTTPManifestRun : Proc unit :=
  main (P := recorder) s3MediaHTTPManifest (stdinEnv [eofRead]).

(** The run reaches the loop, which then reads [rs] from [src]: the log
    opens, the start-up validation passes, and the input is opened on a
    reader that is not built on a nil connection. *)
Definition ingests (cfg : Config) (env : Env) (src : InputSrc)
    (rs : list ReadResult) : Prop :=
  logOpens env cfg = true
  /\ rejected cfg = false
  /\ (exists t, openInput cfg env
                = (t, Ret {| rd_src := src; rd_pending := rs |}))
  /\ src <> TCPConn None.

(** The address [main] listens on. *)
Definition listenAddress (cfg : Config) : string :=
  String.append ":" (Itoa (localPort cfg)).

(** ** Further observations and configurations *)

Section Folding.

Context {MG : Type} {P : Pipeline MG}.

(** [AddData] on each slice in turn, on the manifest generator the call
    before left: the manifest generator after the last slice, and the
    emissions made on the way. *)
Fixpoint feedAll (mg : MG) (slices : list (list byte))
  : MG * list Emission :=
  match slices with
  | [] => (mg, [])
  | b :: slices' =>
    let (mg', es) := AddData mg b in
    let (mg'', es') := feedAll mg' slices' in
    (mg'', es ++ es')
  end.

End Folding.

Definition isNewMG (e : Event) : bool :=
  match e with EvNewMG _ => true | _ => false end.

(** A configuration with the flag -logsPath set. *)
Definition setLogPath (path : string) (cfg : Config) : Config :=
  {| verbose := verbose cfg;
     baseOutPath := baseOutPath cfg;
     chunkBaseFilename := chunkBaseFilename cfg;
     chunkListFilename := chunkListFilename cfg;
     fileNumberLength := fileNumberLength cfg;
     targetSegmentDurS := targetSegmentDurS cfg;
     liveWindowSize := liveWindowSize cfg;
     lhlsAdvancedChunks := lhlsAdvancedChunks cfg;
     manifestTypeInt := manifestTypeInt cfg;
     autoPID := autoPID cfg;
     videoPID := videoPID cfg;
     audioPID := audioPID cfg;
     chunkInitType := chunkInitType cfg;
     mediaDestinationType := mediaDestinationType cfg;
     manifestDestinationType := manifestDestinationType cfg;
     httpScheme := httpScheme cfg;
     httpHost := httpHost cfg;
     logPath := path;
     httpMaxRetries := httpMaxRetries cfg;
     initialHTTPRetryDelay := initialHTTPRetryDelay cfg;
     httpsInsecure := httpsInsecure cfg;
     inputType := inputType cfg;
     localPort := localPort cfg;
     awsID := awsID cfg;
     awsSecret := awsSecret cfg;
     awsRegion := awsRegion cfg;
     s3Bucket := s3Bucket cfg;
     s3UploadTimeOut := s3UploadTimeOut cfg;
     s3IsPublicRead := s3IsPublicRead cfg |}.

(** A configuration with the flags -awsId and -awsSecret set. *)
Definition setAWS (id secret : string) (cfg : Config) : Config :=
  {| verbose := verbose cfg;
     baseOutPath := baseOutPath cfg;
     chunkBaseFilename := chunkBaseFilename cfg;
     chunkListFilename := chunkListFilename cfg;
     fileNumberLength := fileNumberLength cfg;
     targetSegmentDurS := targetSegmentDurS cfg;
     liveWindowSize := liveWindowSize cfg;
     lhlsAdvancedChunks := lhlsAdvancedChunks cfg;
     manifestTypeInt := manifestTypeInt cfg;
     autoPID := autoPID cfg;
     videoPID := videoPID cfg;
     audioPID := audioPID cfg;
     chunkInitType := chunkInitType cfg;
     mediaDestinationType := mediaDestinationType cfg;
     manifestDestinationType := manifestDestinationType cfg;
     httpScheme := httpScheme cfg;
     httpHost := httpHost cfg;
     logPath := logPath cfg;
     httpMaxRetries := httpMaxRetries cfg;
     initialHTTPRetryDelay := initialHTTPRetryDelay cfg;
     httpsInsecure := httpsInsecure cfg;
     inputType := inputType cfg;
     localPort := localPort cfg;
     awsID := id;
     awsSecret := secret;
     awsRegion := awsRegion cfg;
     s3Bucket := s3Bucket cfg;
     s3UploadTimeOut := s3UploadTimeOut cfg;
     s3IsPublicRead := s3IsPublicRead cfg |}.

(** -mediaDestinationType=4 -manifestDestinationType=3: all to S3. *)
Definition s3Output : Config := withFlags true (-1) (-1) 2 4 3 1.

(** -mediaDestinationType=0 -manifestDestinationType=2: no chunks written,
    the manifest to HTTP. *)
Definition httpManifestOnly : Config := withFlags true (-1) (-1) 2 0 2 1.

(** An environment where no file can be opened, with the given reads on
    standard input. *)
Definition readOnlyEnv (rs : list ReadResult) : Env :=
  {| openFile := fun _ => false;
     netListen := fun _ _ => None;
     lnAccept := fun _ => None;
     connReads := fun _ => [];
     stdinReads := rs |}.

(** -logsPath=/var/log/tssegmenter.log *)
Definition withLogFile : Config :=
  setLogPath "/var/log/tssegmenter.log" defaults.

(** All to S3, with the flag -awsId set and the flag -awsSecret left
    empty. *)
Definition s3OutputIdOnly : Config := setAWS "AKIAEXAMPLE" "" s3Output.

(** All to S3, with both flags set. *)
Definition s3OutputWithKeys : Config :=
  setAWS "AKIAEXAMPLE" "secret" s3Output.

(** The slices of [sampleReads]. *)
Definition sampleSlices : list (list byte) :=
  [[x47; x40; x00]%byte; []; [x47; x1f]%byte].

(** The S3 uploader built from a configuration. *)
Definition s3UploaderOf (cfg : Config) : S3Uploader :=
  {| s3_log := loggerOf cfg;
     s3_bucket := s3Bucket cfg;
     s3_region := awsRegion cfg;
     s3_uploadTimeOut := s3UploadTimeOut cfg;
     s3_isPublicRead := s3IsPublicRead cfg;
     s3_creds := awsCredsOf cfg |}.

(** All to S3, on an input that ends at once. *)
Definition s3OutputRun : Proc unit :=
  main (P := recorder) s3Output (stdinEnv [eofRead]).



(** * Properties *)

(** Every read of a given list returns data. *)
Ltac all_return_data :=
  repeat (constructor;
          [first [left; reflexivity
                 | right; split; [reflexivity | discriminate]] |]);
  constructor.

(** A given run reaches the loop, by evaluation of its start-up. *)
Ltac reaches_loop :=
  repeat split; [eexists; reflexivity | discriminate].

(** ** The process monad *)

Lemma bind_ret {A B} (t : list Event) (a : A) (k : A -> Proc B) :
  bind (t, Ret a) k = (t ++ fst (k a), snd (k a)).
Proof. unfold bind. destruct (k a); reflexivity. Qed.

Lemma bind_halt {A B} (t : list Event) (o : Outcome) (k : A -> Proc B) :
  bind (t, Halt o) k = (t, Halt o).
Proof. reflexivity. Qed.

Lemma trace_bind_prefix {A B} (c : Proc A) (k : A -> Proc B) :
  exists t', trace (bind c k) = trace c ++ t'.
Proof.
  destruct c as [t [a | o]].
  - rewrite bind_ret. exists (fst (k a)). reflexivity.
  - exists []. simpl. now rewrite app_nil_r.
Qed.

(** ** Observations and concatenation *)

Lemma forwarded_app (t1 t2 : list Event) :
  forwarded (t1 ++ t2) = forwarded t1 ++ forwarded t2.
Proof. unfold forwarded. apply flat_map_app. Qed.

Lemma readsOf_app (t1 t2 : list Event) :
  readsOf (t1 ++ t2) = readsOf t1 ++ readsOf t2.
Proof. unfold readsOf. apply flat_map_app. Qed.

Lemma closes_app (t1 t2 : list Event) :
  closes (t1 ++ t2) = (closes t1 + closes t2)%nat.
Proof. unfold closes. now rewrite filter_app, length_app. Qed.

Lemma uploadersBuilt_app (t1 t2 : list Event) :
  uploadersBuilt (t1 ++ t2) = (uploadersBuilt t1 + uploadersBuilt t2)%nat.
Proof. unfold uploadersBuilt. now rewrite filter_app, length_app. Qed.

Lemma forwarded_cons (e : Event) (t : list Event) :
  forwarded (e :: t)
  = match e with EvAddData b => [b] | _ => [] end ++ forwarded t.
Proof. reflexivity. Qed.

Lemma readsOf_cons (e : Event) (t : list Event) :
  readsOf (e :: t)
  = match e with EvRead s r => [(s, r)] | _ => [] end ++ readsOf t.
Proof. reflexivity. Qed.

Lemma closes_cons (e : Event) (t : list Event) :
  closes (e :: t) = ((if isClose e then 1 else 0) + closes t)%nat.
Proof. unfold closes. simpl. now destruct (isClose e). Qed.

Lemma forwarded_emissions (es : list Emission) :
  forwarded (map EvEmission es) = [].
Proof. induction es; simpl; auto. Qed.

Lemma readsOf_emissions (es : list Emission) :
  readsOf (map EvEmission es) = [].
Proof. induction es; simpl; auto. Qed.

Lemma closes_emissions (es : list Emission) :
  closes (map EvEmission es) = O.
Proof. induction es; simpl; auto. Qed.

Lemma emissions_loop_events (es : list Emission) :
  Forall (fun e => isLoopEv e = true) (map EvEmission es).
Proof. induction es; simpl; constructor; auto. Qed.

(** An event of the start-up is no event of the loop or of the input. *)
Lemma startup_event_not_later (e : Event) :
  isStartupEv e = true -> isInputEv e = false /\ isLoopEv e = false.
Proof. destruct e; simpl; intros H; try discriminate; auto. Qed.

Lemma no_close_outside_loop (t : list Event) :
  Forall (fun e => isLoopEv e = false) t -> closes t = O.
Proof.
  induction 1 as [| e t He _ IH]; [reflexivity |].
  unfold closes in *. simpl. destruct e; simpl in *; auto; discriminate.
Qed.

Lemma no_forward_outside_loop (t : list Event) :
  Forall (fun e => isLoopEv e = false) t -> forwarded t = [].
Proof.
  induction 1 as [| e t He _ IH]; [reflexivity |].
  destruct e; simpl in *; auto; discriminate.
Qed.

Lemma no_read_outside_loop (t : list Event) :
  Forall (fun e => isLoopEv e = false) t -> readsOf t = [].
Proof.
  induction 1 as [| e t He _ IH]; [reflexivity |].
  destruct e; simpl in *; auto; discriminate.
Qed.

Lemma no_uploader_after_startup (t : list Event) :
  Forall (fun e => isStartupEv e = false) t -> uploadersBuilt t = O.
Proof.
  induction 1 as [| e t He _ IH]; [reflexivity |].
  unfold uploadersBuilt in *. destruct e; simpl in *; auto; discriminate.
Qed.

(** ** The three cases of a read *)

Lemma read_cases (rd : ReadResult) :
  (stopsAtEOF rd = true /\ isReadFailure rd = false /\ isData rd = false)
  \/ (stopsAtEOF rd = false /\ isReadFailure rd = true /\ isData rd = false)
  \/ (stopsAtEOF rd = false /\ isReadFailure rd = false /\ isData rd = true).
Proof.
  unfold isData, stopsAtEOF, isReadFailure.
  destruct rd as [b [[| m] |]]; destruct b; simpl; auto.
Qed.

(** A read that returns bytes is data, with [io.EOF] as well as without. *)
Lemma bytes_are_data (rd : ReadResult) :
  rr_bytes rd <> [] -> isReadFailure rd = false -> isData rd = true.
Proof.
  unfold isData, stopsAtEOF. intros Hb ->.
  destruct (rr_bytes rd); [contradiction | reflexivity].
Qed.

(** ** The loop *)

Section LoopFacts.

Context {MG : Type} {P : Pipeline MG}.

Lemma loop_eof (src : InputSrc) (last : ReadResult)
    (rest : list ReadResult) (mg : MG) :
  stopsAtEOF last = true ->
  loop src (last :: rest) mg
  = (EvRead src last :: EvClose :: map EvEmission (snd (Close mg)),
     Ret (fst (Close mg))).
Proof.
  unfold stopsAtEOF. intros H. simpl. rewrite H.
  destruct (Close mg) as [mg' es]. simpl. now rewrite app_nil_r.
Qed.

Lemma loop_failure (src : InputSrc) (bad : ReadResult)
    (rest : list ReadResult) (mg : MG) :
  isReadFailure bad = true ->
  loop src (bad :: rest) mg = ([EvRead src bad], Halt (Exited 1)).
Proof.
  intros H. destruct (read_cases bad) as [(_ & F & _) | [(E & _ & _) | (_ & F & _)]];
    try congruence.
  unfold stopsAtEOF, isReadFailure in *. simpl. rewrite E, H. reflexivity.
Qed.

Lemma loop_data (src : InputSrc) (rd : ReadResult)
    (rest : list ReadResult) (mg : MG) :
  isData rd = true ->
  loop src (rd :: rest) mg
  = (EvRead src rd :: EvAddData (rr_bytes rd)
       :: map EvEmission (snd (AddData mg (rr_bytes rd)))
       ++ fst (loop src rest (fst (AddData mg (rr_bytes rd)))),
     snd (loop src rest (fst (AddData mg (rr_bytes rd))))).
Proof.
  intros H. destruct (read_cases rd) as [(_ & _ & D) | [(_ & _ & D) | (E & F & _)]];
    try congruence.
  unfold stopsAtEOF, isReadFailure in *. simpl. rewrite E, F.
  destruct (AddData mg (rr_bytes rd)) as [mg' es]. simpl.
  destruct (loop src rest mg') as [t [a | o]]; reflexivity.
Qed.

(** Through a run of data reads the loop feeds the manifest generator and
    goes on with the reads that follow. *)
Lemma loop_feed (src : InputSrc) (pre rest : list ReadResult) (mg : MG) :
  Forall (fun rd => isData rd = true) pre ->
  loop src (pre ++ rest) mg
  = (fst (feed src pre mg) ++ fst (loop src rest (snd (feed src pre mg))),
     snd (loop src rest (snd (feed src pre mg)))).
Proof.
  intros H. revert mg. induction H as [| rd pre Hrd _ IH]; intros mg.
  - simpl. now destruct (loop src rest mg).
  - rewrite <- app_comm_cons. rewrite loop_data by exact Hrd. rewrite IH. simpl.
    destruct (AddData mg (rr_bytes rd)) as [mg' es]. simpl.
    destruct (feed src pre mg') as [t mg'']. simpl.
    now rewrite <- app_assoc.
Qed.

Lemma forwarded_feed (src : InputSrc) (pre : list ReadResult) (mg : MG) :
  forwarded (fst (feed src pre mg)) = map rr_bytes pre.
Proof.
  revert mg. induction pre as [| rd pre IH]; intros mg; [reflexivity |].
  simpl. destruct (AddData mg (rr_bytes rd)) as [mg' es].
  specialize (IH mg'). destruct (feed src pre mg') as [t mg'']. simpl fst in *.
  rewrite !forwarded_cons, forwarded_app, forwarded_emissions, IH.
  reflexivity.
Qed.

Lemma readsOf_feed (src : InputSrc) (pre : list ReadResult) (mg : MG) :
  readsOf (fst (feed src pre mg)) = map (pair src) pre.
Proof.
  revert mg. induction pre as [| rd pre IH]; intros mg; [reflexivity |].
  simpl. destruct (AddData mg (rr_bytes rd)) as [mg' es].
  specialize (IH mg'). destruct (feed src pre mg') as [t mg'']. simpl fst in *.
  rewrite !readsOf_cons, readsOf_app, readsOf_emissions, IH.
  reflexivity.
Qed.

Lemma closes_feed (src : InputSrc) (pre : list ReadResult) (mg : MG) :
  closes (fst (feed src pre mg)) = O.
Proof.
  revert mg. induction pre as [| rd pre IH]; intros mg; [reflexivity |].
  simpl. destruct (AddData mg (rr_bytes rd)) as [mg' es].
  specialize (IH mg'). destruct (feed src pre mg') as [t mg'']. simpl fst in *.
  rewrite !closes_cons, closes_app, closes_emissions, IH.
  reflexivity.
Qed.

(** The loop makes only reads, calls of [AddData] and [Close], and the
    emissions of these. *)
Lemma loop_events (src : InputSrc) (rs : list ReadResult) (mg : MG) :
  Forall (fun e => isLoopEv e = true) (trace (loop src rs mg)).
Proof.
  unfold trace. revert mg. induction rs as [| rd rs IH]; intros mg.
  - constructor.
  - destruct (read_cases rd) as [(E & _) | [(_ & F & _) | (_ & _ & D)]].
    + rewrite loop_eof by exact E. simpl fst.
      do 2 (constructor; [reflexivity |]). apply emissions_loop_events.
    + rewrite loop_failure by exact F. simpl fst. now repeat constructor.
    + rewrite loop_data by exact D. simpl fst.
      do 2 (constructor; [reflexivity |]).
      apply Forall_app. split; [apply emissions_loop_events | apply IH].
Qed.

(** How the loop ends depends on the reads alone. *)
Lemma loop_outcome (src : InputSrc) (rs : list ReadResult) (mg : MG) :
  outcome (loop src rs mg) = loopEnd rs.
Proof.
  unfold outcome. revert mg. induction rs as [| rd rs IH]; intros mg.
  - reflexivity.
  - destruct (read_cases rd) as [(E & _) | [(E & F & _) | (E & F & D)]].
    + rewrite loop_eof by exact E. simpl. now rewrite E.
    + rewrite loop_failure by exact F. simpl. now rewrite E, F.
    + rewrite loop_data by exact D. simpl. rewrite E, F. apply IH.
Qed.

(** So do the reads it makes. *)
Lemma loop_reads (src : InputSrc) (rs : list ReadResult) (mg : MG) :
  readsOf (trace (loop src rs mg)) = map (pair src) (consumed rs).
Proof.
  unfold trace. revert mg. induction rs as [| rd rs IH]; intros mg.
  - reflexivity.
  - cbn [consumed].
    destruct (read_cases rd) as [(E & _ & D) | [(E & F & D) | (E & F & D)]];
      rewrite D.
    + rewrite loop_eof by exact E. simpl fst.
      rewrite !readsOf_cons, readsOf_emissions. reflexivity.
    + rewrite loop_failure by exact F. reflexivity.
    + rewrite loop_data by exact D. simpl fst.
      rewrite !readsOf_cons, readsOf_app, readsOf_emissions, IH.
      reflexivity.
Qed.

(** What is forwarded are the data reads among the reads made. *)
Lemma loop_forwarded (src : InputSrc) (rs : list ReadResult) (mg : MG) :
  forwarded (trace (loop src rs mg))
  = map rr_bytes (filter isData (consumed rs)).
Proof.
  unfold trace. revert mg. induction rs as [| rd rs IH]; intros mg.
  - reflexivity.
  - cbn [consumed].
    destruct (read_cases rd) as [(E & _ & D) | [(E & F & D) | (E & F & D)]];
      rewrite D; cbn [filter]; rewrite D.
    + rewrite loop_eof by exact E. simpl fst.
      rewrite !forwarded_cons, forwarded_emissions. reflexivity.
    + rewrite loop_failure by exact F. reflexivity.
    + rewrite loop_data by exact D. simpl fst.
      rewrite !forwarded_cons, forwarded_app, forwarded_emissions, IH.
      reflexivity.
Qed.

(** [Close] is called once when the loop breaks and not at all when it
    ends the process or waits. *)
Lemma loop_closes (src : InputSrc) (rs : list ReadResult) (mg : MG) :
  closes (trace (loop src rs mg))
  = match loopEnd rs with None => 1%nat | Some _ => O end.
Proof.
  unfold trace. revert mg. induction rs as [| rd rs IH]; intros mg.
  - reflexivity.
  - cbn [loopEnd].
    destruct (read_cases rd) as [(E & _ & D) | [(E & F & D) | (E & F & D)]];
      rewrite E; try rewrite F.
    + rewrite loop_eof by exact E. simpl fst.
      rewrite !closes_cons, closes_emissions. reflexivity.
    + rewrite loop_failure by exact F. reflexivity.
    + rewrite loop_data by exact D. simpl fst.
      rewrite !closes_cons, closes_app, closes_emissions, IH.
      reflexivity.
Qed.

End LoopFacts.

(** ** The start-up *)

Lemma configureLogger_opens (env : Env) (cfg : Config) :
  logOpens env cfg = true ->
  configureLogger env (verbose cfg) (logPath cfg)
  = (logTrace cfg, Ret (loggerOf cfg)).
Proof.
  unfold logOpens, configureLogger, logTrace, loggerOf.
  destruct (String.eqb (logPath cfg) ""); simpl; [reflexivity |].
  now intros ->.
Qed.

Lemma configureLogger_fails (env : Env) (cfg : Config) :
  logOpens env cfg = false ->
  configureLogger env (verbose cfg) (logPath cfg)
  = ([EvOpenFile (logPath cfg)], Halt (Exited (-1))).
Proof.
  unfold logOpens, configureLogger.
  destruct (String.eqb (logPath cfg) ""); simpl; [discriminate |].
  now intros ->.
Qed.

(** The uploader variables after the choice of the uploader. *)
Lemma newUploaders_cases (cfg : Config) (log : Logger) :
  (isHTTPOut cfg = true /\
   exists u, newUploaders cfg log = ([EvNewHTTPUploader u], Ret (Some u, None)))
  \/ (isHTTPOut cfg = false /\ isS3Out cfg = true /\
      exists u, newUploaders cfg log = ([EvNewS3Uploader u], Ret (None, Some u)))
  \/ (isHTTPOut cfg = false /\ isS3Out cfg = false /\
      newUploaders cfg log = ([], Ret (None, None))).
Proof.
  unfold newUploaders.
  destruct (isHTTPOut cfg).
  - left. split; [reflexivity |]. eexists. reflexivity.
  - right. destruct (isS3Out cfg).
    + left. repeat split. eexists. reflexivity.
    + right. repeat split.
Qed.

Lemma newUploaders_returns (cfg : Config) (log : Logger) :
  exists t h s, newUploaders cfg log = (t, Ret (h, s)).
Proof.
  destruct (newUploaders_cases cfg log)
    as [(_ & u & ->) | [(_ & _ & u & ->) | (_ & _ & ->)]]; eauto.
Qed.

Section MainFacts.

Context {MG : Type} {P : Pipeline MG}.

Lemma startup_log_fails (cfg : Config) (env : Env) :
  logOpens env cfg = false ->
  startup cfg env = ([EvOpenFile (logPath cfg)], Halt (Exited (-1))).
Proof.
  intros H. unfold startup. now rewrite configureLogger_fails.
Qed.

Lemma startup_rejected (cfg : Config) (env : Env) :
  logOpens env cfg = true -> rejected cfg = true ->
  startup cfg env = (logTrace cfg, Halt (Exited 1)).
Proof.
  intros H R. unfold startup. rewrite configureLogger_opens by exact H.
  rewrite bind_ret. unfold rejected in R. rewrite R. simpl.
  now rewrite app_nil_r.
Qed.

Lemma startup_passes (cfg : Config) (env : Env) :
  logOpens env cfg = true -> rejected cfg = false ->
  exists t h s,
    newUploaders cfg (loggerOf cfg) = (t, Ret (h, s))
    /\ startup cfg env
       = (logTrace cfg ++ mkdirTrace cfg ++ t
            ++ [EvNewMG (newArgs cfg (loggerOf cfg) h s)],
          Ret (New (newArgs cfg (loggerOf cfg) h s))).
Proof.
  intros H R. destruct (newUploaders_returns cfg (loggerOf cfg)) as (t & h & s & U).
  exists t, h, s. split; [exact U |].
  unfold startup. rewrite configureLogger_opens by exact H.
  rewrite bind_ret. unfold rejected in R. rewrite R. rewrite U.
  unfold mkdirTrace.
  destruct ((mediachunk.OutputTypes (mediaDestinationType cfg)
             =? mediachunk.ChunkOutputModeFile)
            || (hls.OutputTypes (manifestDestinationType cfg)
                =? hls.HlsOutputModeFile)); simpl;
    now rewrite ?app_nil_r.
Qed.

(** The start-up of every configuration, in the three ways it can go. *)
Lemma startup_cases (cfg : Config) (env : Env) :
  (logOpens env cfg = false
   /\ startup cfg env = ([EvOpenFile (logPath cfg)], Halt (Exited (-1))))
  \/ (logOpens env cfg = true /\ rejected cfg = true
      /\ startup cfg env = (logTrace cfg, Halt (Exited 1)))
  \/ (logOpens env cfg = true /\ rejected cfg = false
      /\ exists t h s,
           newUploaders cfg (loggerOf cfg) = (t, Ret (h, s))
           /\ startup cfg env
              = (logTrace cfg ++ mkdirTrace cfg ++ t
                   ++ [EvNewMG (newArgs cfg (loggerOf cfg) h s)],
                 Ret (New (newArgs cfg (loggerOf cfg) h s)))).
Proof.
  destruct (logOpens env cfg) eqn:H.
  - destruct (rejected cfg) eqn:R.
    + right; left. auto using startup_rejected.
    + right; right. auto using startup_passes.
  - left. auto using startup_log_fails.
Qed.

Lemma logTrace_events (cfg : Config) :
  Forall (fun e => isStartupEv e = true) (logTrace cfg).
Proof. unfold logTrace. destruct (String.eqb _ _); repeat constructor. Qed.

Lemma mkdirTrace_events (cfg : Config) :
  Forall (fun e => isStartupEv e = true) (mkdirTrace cfg).
Proof. unfold mkdirTrace. destruct (_ || _); repeat constructor. Qed.

Lemma newUploaders_events (cfg : Config) (log : Logger) :
  Forall (fun e => isStartupEv e = true) (trace (newUploaders cfg log)).
Proof.
  destruct (newUploaders_cases cfg log)
    as [(_ & u & ->) | [(_ & _ & u & ->) | (_ & _ & ->)]];
    repeat constructor.
Qed.

Lemma startup_events (cfg : Config) (env : Env) :
  Forall (fun e => isStartupEv e = true) (trace (startup cfg env)).
Proof.
  destruct (startup_cases cfg env)
    as [(_ & ->) | [(_ & _ & ->) | (_ & _ & t & h & s & U & ->)]];
    unfold trace; simpl fst.
  - repeat constructor.
  - apply logTrace_events.
  - pose proof (newUploaders_events cfg (loggerOf cfg)) as E.
    rewrite U in E. unfold trace in E. simpl in E.
    apply Forall_app; split; [apply logTrace_events |].
    apply Forall_app; split; [apply mkdirTrace_events |].
    apply Forall_app; split; [exact E |].
    repeat constructor.
Qed.

Lemma openInput_events (cfg : Config) (env : Env) :
  Forall (fun e => isInputEv e = true) (trace (openInput cfg env)).
Proof.
  unfold openInput, trace. destruct (inputType cfg =? 2); simpl.
  - destruct (netListen env _ _); simpl; repeat constructor.
  - constructor.
Qed.

Lemma ingest_events (r : Reader) (mg : MG) :
  Forall (fun e => isLoopEv e = true) (trace (ingest r mg)).
Proof.
  unfold ingest. destruct (rd_src r) as [| [c |]];
    try apply loop_events. constructor.
Qed.

(** [main] when the start-up ends the process. *)
Lemma main_startup_halts (cfg : Config) (env : Env)
    (t0 : list Event) (o : Outcome) :
  startup cfg env = (t0, Halt o) -> main cfg env = (t0, Halt o).
Proof. intros H. unfold main. now rewrite H. Qed.

(** [main] when the input cannot be opened. *)
Lemma main_input_halts (cfg : Config) (env : Env)
    (t0 t1 : list Event) (mg : MG) (o : Outcome) :
  startup cfg env = (t0, Ret mg) -> openInput cfg env = (t1, Halt o) ->
  main cfg env = (t0 ++ t1, Halt o).
Proof. intros H I. unfold main. now rewrite H, bind_ret, I. Qed.

(** [main] when the loop is reached. *)
Lemma main_ingests (cfg : Config) (env : Env)
    (t0 t1 : list Event) (mg : MG) (r : Reader) :
  startup cfg env = (t0, Ret mg) -> openInput cfg env = (t1, Ret r) ->
  main cfg env
  = (t0 ++ t1 ++ trace (ingest r mg), afterLoop (result (ingest r mg))).
Proof.
  intros H I. unfold main, trace, result. rewrite H, bind_ret, I, bind_ret.
  destruct (ingest r mg) as [t [mg' | o]]; simpl;
    now rewrite ?app_nil_r.
Qed.

(** The trace of [main]: the start-up, then the opening of the input,
    then the loop. *)
Lemma main_trace (cfg : Config) (env : Env) :
  exists t1 t2,
    trace (main cfg env) = trace (startup cfg env) ++ t1 ++ t2
    /\ Forall (fun e => isInputEv e = true) t1
    /\ Forall (fun e => isLoopEv e = true) t2.
Proof.
  destruct (startup cfg env) as [t0 [mg | o]] eqn:H.
  - destruct (openInput cfg env) as [t1 [r | o]] eqn:I.
    + exists t1, (trace (ingest r mg)).
      rewrite (main_ingests _ _ _ _ _ _ H I). repeat split.
      * pose proof (openInput_events cfg env) as E. now rewrite I in E.
      * apply ingest_events.
    + exists t1, []. rewrite (main_input_halts _ _ _ _ _ _ H I).
      unfold trace. simpl. rewrite app_nil_r. repeat split.
      * pose proof (openInput_events cfg env) as E. now rewrite I in E.
      * constructor.
  - exists [], []. rewrite (main_startup_halts _ _ _ _ H).
    unfold trace. simpl. rewrite app_nil_r. repeat split; constructor.
Qed.

End MainFacts.

(** ** Reads that end the loop *)

Lemma loopEnd_eof (pre : list ReadResult) (last : ReadResult)
    (rest : list ReadResult) :
  Forall (fun rd => isData rd = true) pre -> stopsAtEOF last = true ->
  loopEnd (pre ++ last :: rest) = None.
Proof.
  intros H E. induction H as [| rd pre Hrd _ IH]; simpl.
  - now rewrite E.
  - destruct (read_cases rd) as [(_ & _ & D) | [(_ & _ & D) | (E' & F' & _)]];
      try congruence.
    now rewrite E', F'.
Qed.

Lemma loopEnd_failure (pre : list ReadResult) (bad : ReadResult)
    (rest : list ReadResult) :
  Forall (fun rd => isData rd = true) pre -> isReadFailure bad = true ->
  loopEnd (pre ++ bad :: rest) = Some (Exited 1).
Proof.
  intros H F. induction H as [| rd pre Hrd _ IH]; simpl.
  - destruct (read_cases bad) as [(_ & F' & _) | [(E' & _ & _) | (_ & F' & _)]];
      try congruence.
    now rewrite E', F.
  - destruct (read_cases rd) as [(_ & _ & D) | [(_ & _ & D) | (E' & F' & _)]];
      try congruence.
    now rewrite E', F'.
Qed.

Lemma loopEnd_data (rs : list ReadResult) :
  Forall (fun rd => isData rd = true) rs -> loopEnd rs = Some Blocked.
Proof.
  induction 1 as [| rd rs Hrd _ IH]; simpl; [reflexivity |].
  destruct (read_cases rd) as [(_ & _ & D) | [(_ & _ & D) | (E' & F' & _)]];
    try congruence.
  now rewrite E', F'.
Qed.

Lemma consumed_stops (pre : list ReadResult) (x : ReadResult)
    (rest : list ReadResult) :
  Forall (fun rd => isData rd = true) pre -> isData x = false ->
  consumed (pre ++ x :: rest) = pre ++ [x].
Proof.
  intros H X. induction H as [| rd pre Hrd _ IH]; simpl.
  - now rewrite X.
  - now rewrite Hrd, IH.
Qed.

Lemma filter_data_stops (pre : list ReadResult) (x : ReadResult) :
  Forall (fun rd => isData rd = true) pre -> isData x = false ->
  filter isData (pre ++ [x]) = pre.
Proof.
  intros H X. induction H as [| rd pre Hrd _ IH]; simpl.
  - now rewrite X.
  - now rewrite Hrd, IH.
Qed.

(** The reads split at the first that is not data. *)
Lemma split_at_stop (rs : list ReadResult) :
  Forall (fun rd => isData rd = true) rs
  \/ exists pre x rest,
       rs = pre ++ x :: rest
       /\ Forall (fun rd => isData rd = true) pre
       /\ isData x = false.
Proof.
  induction rs as [| rd rs IH].
  - left. constructor.
  - destruct (isData rd) eqn:D.
    + destruct IH as [IH | (pre & x & rest & -> & Hp & X)].
      * left. now constructor.
      * right. exists (rd :: pre), x, rest. repeat split; auto.
    + right. exists [], rd, rs. repeat split; auto.
Qed.

Lemma not_data_cases (x : ReadResult) :
  isData x = false ->
  (stopsAtEOF x = true /\ isReadFailure x = false)
  \/ (stopsAtEOF x = false /\ isReadFailure x = true).
Proof.
  intros X. destruct (read_cases x) as [(E & F & _) | [(E & F & _) | (_ & _ & D)]];
    auto; congruence.
Qed.

(** ** The run, once the loop is reached *)

Lemma input_event_not_loop (e : Event) :
  isInputEv e = true -> isLoopEv e = false.
Proof. destruct e; simpl; intros H; try discriminate; auto. Qed.

Lemma loop_event_not_startup (e : Event) :
  isLoopEv e = true -> isStartupEv e = false.
Proof. destruct e; simpl; intros H; try discriminate; auto. Qed.

Lemma input_event_not_startup (e : Event) :
  isInputEv e = true -> isStartupEv e = false.
Proof. destruct e; simpl; intros H; try discriminate; auto. Qed.

Lemma loop_event_not_input (e : Event) :
  isLoopEv e = true -> isInputEv e = false.
Proof. destruct e; simpl; intros H; try discriminate; auto. Qed.

Lemma outcome_afterLoop {A} (t : list Event) (c : Proc A) :
  outcome (t, afterLoop (result c))
  = Some match outcome c with None => Exited 0 | Some o => o end.
Proof. unfold outcome, result. simpl. now destruct (snd c). Qed.

Section RunFacts.

Context {MG : Type} {P : Pipeline MG}.

(** A run that reaches the loop: what comes before the loop are calls of
    the start-up and of the opening of the input. *)
Lemma main_of_ingests (cfg : Config) (env : Env) (src : InputSrc)
    (rs : list ReadResult) :
  ingests cfg env src rs ->
  exists t mg,
    Forall (fun e => isLoopEv e = false) t
    /\ main cfg env
       = (t ++ trace (loop src rs mg), afterLoop (result (loop src rs mg))).
Proof.
  intros (L & R & (t1 & I) & N).
  destruct (startup_passes (P := P) cfg env L R) as (tu & h & s & U & S).
  exists ((logTrace cfg ++ mkdirTrace cfg ++ tu
           ++ [EvNewMG (newArgs cfg (loggerOf cfg) h s)]) ++ t1),
         (New (newArgs cfg (loggerOf cfg) h s)).
  split.
  - apply Forall_app. split.
    + pose proof (startup_events (P := P) cfg env) as E. rewrite S in E.
      unfold trace in E. simpl in E.
      eapply Forall_impl; [| exact E].
      intros e He. now apply startup_event_not_later.
    + pose proof (openInput_events cfg env) as E. rewrite I in E.
      eapply Forall_impl; [| exact E].
      intros e He. now apply input_event_not_loop.
  - rewrite (main_ingests _ _ _ _ _ _ S I). unfold ingest. simpl.
    destruct src as [| [c |]]; [| | now elim N];
      now rewrite <- !app_assoc.
Qed.

(** Its outcome and its calls of the loop are those of the loop. *)
Lemma run_outcome (cfg : Config) (env : Env) (src : InputSrc)
    (rs : list ReadResult) :
  ingests cfg env src rs ->
  outcome (main cfg env)
  = Some match loopEnd rs with None => Exited 0 | Some o => o end.
Proof.
  intros H. destruct (main_of_ingests _ _ _ _ H) as (t & mg & _ & ->).
  now rewrite outcome_afterLoop, loop_outcome.
Qed.

Lemma run_closes (cfg : Config) (env : Env) (src : InputSrc)
    (rs : list ReadResult) :
  ingests cfg env src rs ->
  closes (trace (main cfg env))
  = match loopEnd rs with None => 1%nat | Some _ => O end.
Proof.
  intros H. destruct (main_of_ingests _ _ _ _ H) as (t & mg & T & ->).
  unfold trace at 1. simpl fst.
  now rewrite closes_app, loop_closes, (no_close_outside_loop _ T).
Qed.

Lemma run_forwarded (cfg : Config) (env : Env) (src : InputSrc)
    (rs : list ReadResult) :
  ingests cfg env src rs ->
  forwarded (trace (main cfg env))
  = map rr_bytes (filter isData (consumed rs)).
Proof.
  intros H. destruct (main_of_ingests _ _ _ _ H) as (t & mg & T & ->).
  unfold trace at 1. simpl fst.
  now rewrite forwarded_app, loop_forwarded, (no_forward_outside_loop _ T).
Qed.

Lemma run_reads (cfg : Config) (env : Env) (src : InputSrc)
    (rs : list ReadResult) :
  ingests cfg env src rs ->
  readsOf (trace (main cfg env)) = map (pair src) (consumed rs).
Proof.
  intros H. destruct (main_of_ingests _ _ _ _ H) as (t & mg & T & ->).
  unfold trace at 1. simpl fst.
  now rewrite readsOf_app, loop_reads, (no_read_outside_loop _ T).
Qed.

End RunFacts.

(** * The start-up validation *)

(** The start-up rejects a configuration exactly when the PIDs are manual
    and the init-data mode is another than "no init data". *)
Lemma rejected_iff (cfg : Config) :
  rejected cfg = true
  <-> autoPID cfg = false
      /\ chunkInitType cfg <> manifestgenerator.ChunkNoIni.
Proof.
  unfold rejected, manifestgenerator.ChunkInitTypes.
  rewrite andb_true_iff, negb_true_iff, Z.eqb_neq.
  destruct (autoPID cfg); simpl; intuition congruence.
Qed.

(** A rejected configuration ends the process with status 1 before the
    manifest generator is built and before anything is read. *)
Lemma rejected_exits_1 {MG : Type} {P : Pipeline MG}
    (cfg : Config) (env : Env) :
  logOpens env cfg = true -> rejected cfg = true ->
  main cfg env = (logTrace cfg, Halt (Exited 1)).
Proof.
  intros L R. apply main_startup_halts. now apply startup_rejected.
Qed.

(** C1.  The claim: manual PIDs with "no init data" end the process at
    start-up with a non-zero status, and no other combination is rejected.
    The test in [main] is the other way round.  With -apids=false
    -initType=0 the run is not rejected: the manifest generator is built,
    the input is read to its end and the status is 0.  With -apids=false
    alone (init data at the start of each chunk) the process exits with
    status 1 before it builds or reads anything, under the message that
    manual PIDs and no init data are not compatible. *)
Theorem C1_validation_rejects_the_other_modes :
  autoPID manualNoIni = false
  /\ chunkInitType manualNoIni = manifestgenerator.ChunkNoIni
  /\ outcome manualNoIniRun = Some (Exited 0)
  /\ readsOf (trace manualNoIniRun) = [(Stdin, eofRead)]
  /\ closes (trace manualNoIniRun) = 1%nat
  /\ autoPID manualInitStart = false
  /\ chunkInitType manualInitStart = manifestgenerator.ChunkInitStart
  /\ manualInitStartRun = ([], Halt (Exited 1)).
Proof. repeat split. Qed.

(** * The arguments of the manifest generator *)

(** The manifest generator is built in the start-up only, from the
    arguments [newArgs] makes of the configuration. *)
Lemma main_newMG {MG : Type} {P : Pipeline MG}
    (cfg : Config) (env : Env) (a : MGArgs) :
  In (EvNewMG a) (trace (main cfg env)) ->
  exists tu h s,
    newUploaders cfg (loggerOf cfg) = (tu, Ret (h, s))
    /\ a = newArgs cfg (loggerOf cfg) h s
    /\ uploadersBuilt (trace (main cfg env)) = uploadersBuilt tu
    /\ exists t t', trace (main cfg env) = t ++ tu ++ EvNewMG a :: t'
                    /\ Forall (fun e => isNewUploader e = false) t
                    /\ Forall (fun e => isStartupEv e = false) t'.
Proof.
  intros H.
  destruct (main_trace (P := P) cfg env) as (t1 & t2 & T & E1 & E2).
  assert (L : Forall (fun e => isStartupEv e = false) (t1 ++ t2)).
  { apply Forall_app. split.
    - eapply Forall_impl; [| exact E1]. intros e. apply input_event_not_startup.
    - eapply Forall_impl; [| exact E2]. intros e. apply loop_event_not_startup. }
  rewrite T in H. apply in_app_or in H. destruct H as [H | H].
  2:{ rewrite Forall_forall in L. specialize (L _ H). discriminate L. }
  assert (NL : Forall (fun e => isNewUploader e = false) (logTrace cfg)).
  { unfold logTrace. destruct (String.eqb _ _); repeat constructor. }
  assert (NM : Forall (fun e => isNewUploader e = false) (mkdirTrace cfg)).
  { unfold mkdirTrace. destruct (_ || _); repeat constructor. }
  assert (IL : ~ In (EvNewMG a) (logTrace cfg)).
  { unfold logTrace. destruct (String.eqb _ _); simpl; [tauto |].
    intros [X | []]. discriminate X. }
  assert (IM : ~ In (EvNewMG a) (mkdirTrace cfg)).
  { unfold mkdirTrace. destruct (_ || _); simpl; [| tauto].
    intros [X | []]. discriminate X. }
  destruct (startup_cases (P := P) cfg env)
    as [(_ & S) | [(_ & _ & S) | (_ & _ & tu & h & s & U & S)]];
    rewrite S in H, T; unfold trace in H at 1; simpl in H.
  - destruct H as [H | []]. discriminate.
  - contradiction.
  - exists tu, h, s.
    assert (A : a = newArgs cfg (loggerOf cfg) h s).
    { apply in_app_or in H. destruct H as [H | H]; [contradiction |].
      apply in_app_or in H. destruct H as [H | H]; [contradiction |].
      apply in_app_or in H. destruct H as [H | H].
      { destruct (newUploaders_cases cfg (loggerOf cfg))
          as [(_ & u & U') | [(_ & _ & u & U') | (_ & _ & U')]];
          rewrite U' in U; injection U as <- _ _; simpl in H;
          try contradiction; destruct H as [H | []]; discriminate. }
      destruct H as [H | []]. now injection H. }
    subst a. split; [exact U |]. split; [reflexivity |].
    assert (Z0 : forall t, Forall (fun e => isNewUploader e = false) t ->
                           uploadersBuilt t = O).
    { induction 1 as [| e t He _ IH]; [reflexivity |].
      unfold uploadersBuilt in *. simpl. now rewrite He. }
    split.
    + rewrite T. unfold trace at 1. simpl fst.
      rewrite uploadersBuilt_app, (no_uploader_after_startup _ L).
      rewrite !uploadersBuilt_app, (Z0 _ NL), (Z0 _ NM).
      change (uploadersBuilt [EvNewMG (newArgs cfg (loggerOf cfg) h s)])
        with O.
      lia.
    + exists (logTrace cfg ++ mkdirTrace cfg), (t1 ++ t2).
      split; [| split; [| exact L]].
      * rewrite T. unfold trace at 1. simpl fst.
        rewrite <- !app_assoc. reflexivity.
      * apply Forall_app. now split.
Qed.

(** The two PID arguments are the constant -1, for every configuration. *)
Lemma newArgs_pids (cfg : Config) (log : Logger)
    (h : option HTTPUploader) (s : option S3Uploader) :
  arg_videoPID (newArgs cfg log h s) = -1
  /\ arg_audioPID (newArgs cfg log h s) = -1.
Proof. split; reflexivity. Qed.

(** C2.  The claim: with auto detection off, the manifest generator is
    built with the PIDs of -vpid and -apid.  [main] never reads these two
    flags: the call of [New] has the literal -1 in both places.  With
    -apids=false -vpid=256 -apid=257 the manifest generator is built in
    manual mode with the PIDs -1 and -1. *)
Theorem C2_configured_pids_are_not_passed :
  autoPID manualNoIni = false
  /\ videoPID manualNoIni = 256
  /\ audioPID manualNoIni = 257
  /\ exists a t t',
       trace manualNoIniRun = t ++ EvNewMG a :: t'
       /\ arg_autoPIDs a = false
       /\ arg_videoPID a = -1
       /\ arg_audioPID a = -1.
Proof.
  repeat split.
  eexists. exists [EvMkdirAll "./results" 484]. eexists.
  repeat split.
Qed.

(** * The end of the input *)

Lemma stopsAtEOF_iff (rd : ReadResult) :
  stopsAtEOF rd = true <-> returnsEOF rd.
Proof.
  unfold stopsAtEOF, returnsEOF.
  destruct rd as [[| b bs] [[| m] |]]; simpl; split;
    intros H; try discriminate; try destruct H; try discriminate; auto.
Qed.

Lemma isReadFailure_iff (rd : ReadResult) :
  isReadFailure rd = true <-> returnsFailure rd.
Proof.
  unfold isReadFailure, returnsFailure.
  destruct rd as [bs [[| m] |]]; simpl; split;
    intros H; try discriminate; try destruct H; try discriminate; eauto.
Qed.

Lemma isData_iff (rd : ReadResult) :
  isData rd = true <-> returnsData rd.
Proof.
  unfold isData, stopsAtEOF, isReadFailure, returnsData.
  destruct rd as [[| b bs] [[| m] |]]; simpl; split; intros H;
    try discriminate; auto;
    try (destruct H as [H | [H1 H2]]; try discriminate; congruence).
  right. split; [reflexivity | discriminate].
Qed.

Lemma data_reads (pre : list ReadResult) :
  Forall returnsData pre -> Forall (fun rd => isData rd = true) pre.
Proof.
  intros H. eapply Forall_impl; [| exact H]. intros rd. apply isData_iff.
Qed.

Lemma reads_are_data (pre : list ReadResult) :
  Forall (fun rd => isData rd = true) pre -> Forall returnsData pre.
Proof.
  intros H. eapply Forall_impl; [| exact H]. intros rd. apply isData_iff.
Qed.

Lemma failure_not_data (rd : ReadResult) :
  returnsFailure rd -> isReadFailure rd = true /\ isData rd = false.
Proof.
  intros H. apply isReadFailure_iff in H. split; [exact H |].
  unfold isData. rewrite H. apply andb_false_r.
Qed.

Lemma eof_not_data (rd : ReadResult) :
  returnsEOF rd -> stopsAtEOF rd = true /\ isData rd = false.
Proof.
  intros H. apply stopsAtEOF_iff in H. split; [exact H |].
  unfold isData. now rewrite H.
Qed.

Section EndOfInput.

Context {MG : Type} {P : Pipeline MG}.

(** A run that reads data and then the end of the input: its trace ends
    with the call of [Close] and the emissions of [Close], after all the
    data was forwarded. *)
Lemma run_ends_with_close (cfg : Config) (env : Env) (src : InputSrc)
    (pre : list ReadResult) (last : ReadResult) (rest : list ReadResult) :
  ingests cfg env src (pre ++ last :: rest) ->
  Forall returnsData pre -> returnsEOF last ->
  exists t es,
    trace (main cfg env) = t ++ EvClose :: map EvEmission es
    /\ forwarded t = map rr_bytes pre
    /\ closes t = O.
Proof.
  intros H Hp Hl. apply data_reads in Hp. apply eof_not_data in Hl.
  destruct Hl as [E _].
  destruct (main_of_ingests (P := P) _ _ _ _ H) as (t & mg & T & ->).
  unfold trace. simpl fst. rewrite (loop_feed _ _ _ _ Hp).
  rewrite loop_eof by exact E. simpl fst.
  exists (t ++ fst (feed src pre mg) ++ [EvRead src last]),
         (snd (Close (snd (feed src pre mg)))).
  split; [| split].
  - rewrite <- !app_assoc. reflexivity.
  - rewrite !forwarded_app, forwarded_feed, (no_forward_outside_loop _ T).
    simpl. now rewrite app_nil_r.
  - rewrite !closes_app, closes_feed, (no_close_outside_loop _ T).
    reflexivity.
Qed.

Lemma run_at_eof (cfg : Config) (env : Env) (src : InputSrc)
    (pre : list ReadResult) (last : ReadResult) (rest : list ReadResult) :
  ingests cfg env src (pre ++ last :: rest) ->
  Forall returnsData pre -> returnsEOF last ->
  outcome (main cfg env) = Some (Exited 0)
  /\ closes (trace (main cfg env)) = 1%nat
  /\ forwarded (trace (main cfg env)) = map rr_bytes pre
  /\ readsOf (trace (main cfg env)) = map (pair src) (pre ++ [last]).
Proof.
  intros H Hp Hl. apply data_reads in Hp. apply eof_not_data in Hl.
  destruct Hl as [E D].
  rewrite (run_outcome _ _ _ _ H), (run_closes _ _ _ _ H), (run_forwarded _ _ _ _ H), (run_reads _ _ _ _ H).
  rewrite (loopEnd_eof _ _ _ Hp E), (consumed_stops _ _ _ Hp D).
  now rewrite (filter_data_stops _ _ Hp D).
Qed.

Lemma run_at_failure (cfg : Config) (env : Env) (src : InputSrc)
    (pre : list ReadResult) (bad : ReadResult) (rest : list ReadResult) :
  ingests cfg env src (pre ++ bad :: rest) ->
  Forall returnsData pre -> returnsFailure bad ->
  outcome (main cfg env) = Some (Exited 1)
  /\ closes (trace (main cfg env)) = O
  /\ forwarded (trace (main cfg env)) = map rr_bytes pre
  /\ readsOf (trace (main cfg env)) = map (pair src) (pre ++ [bad]).
Proof.
  intros H Hp Hb. apply data_reads in Hp. apply failure_not_data in Hb.
  destruct Hb as [F D].
  rewrite (run_outcome _ _ _ _ H), (run_closes _ _ _ _ H), (run_forwarded _ _ _ _ H), (run_reads _ _ _ _ H).
  rewrite (loopEnd_failure _ _ _ Hp F), (consumed_stops _ _ _ Hp D).
  now rewrite (filter_data_stops _ _ Hp D).
Qed.

End EndOfInput.

(** * A failed read *)

(** C3, the claim refuted.  The claim: when a read returns an error other
    than the end of the stream, the pipeline is closed (the open chunk
    flushed, the final manifest rendered) before the process exits with a
    non-zero status.  In the run below the second read fails: the process
    exits with status 1 and [Close] was never called. *)
Lemma C3_failed_read_closes_nothing :
  In (Stdin, failedRead) (readsOf (trace failedReadRun))
  /\ returnsFailure failedRead
  /\ outcome failedReadRun = Some (Exited 1)
  /\ closes (trace failedReadRun) = O
  /\ ~ In EvClose (trace failedReadRun).
Proof.
  repeat split.
  - simpl. auto.
  - eexists. reflexivity.
  - simpl. intuition discriminate.
Qed.

(** C3, amended.  When a read returns an error other than the end of the
    stream, after reads that all returned data, the process exits with
    status 1 at once: [Close] is not called, the failed read is the last
    read, and what was forwarded are the slices of the reads before it. *)
Theorem C3_failed_read_exits_1_without_close {MG : Type} {P : Pipeline MG}
    (cfg : Config) (env : Env) (src : InputSrc)
    (pre : list ReadResult) (bad : ReadResult) (rest : list ReadResult) :
  ingests cfg env src (pre ++ bad :: rest) ->
  Forall returnsData pre ->
  returnsFailure bad ->
  outcome (main cfg env) = Some (Exited 1)
  /\ closes (trace (main cfg env)) = O
  /\ forwarded (trace (main cfg env)) = map rr_bytes pre
  /\ readsOf (trace (main cfg env)) = map (pair src) (pre ++ [bad]).
Proof. apply run_at_failure. Qed.

(** The amended C3 on the run whose second read fails. *)
Lemma C3_failed_read_witness :
  (ingests defaults
     (stdinEnv [dataRead [x47]%byte; failedRead; eofRead]) Stdin
     ([dataRead [x47]%byte] ++ failedRead :: [eofRead])
   /\ Forall returnsData [dataRead [x47]%byte]
   /\ returnsFailure failedRead)
  /\ outcome failedReadRun = Some (Exited 1)
  /\ closes (trace failedReadRun) = O
  /\ forwarded (trace failedReadRun) = [[x47]%byte]
  /\ readsOf (trace failedReadRun)
     = [(Stdin, dataRead [x47]%byte); (Stdin, failedRead)].
Proof.
  assert (I : ingests defaults
     (stdinEnv [dataRead [x47]%byte; failedRead; eofRead]) Stdin
     ([dataRead [x47]%byte] ++ failedRead :: [eofRead])).
  { reaches_loop. }
  assert (D : Forall returnsData [dataRead [x47]%byte]).
  { unfold returnsData. all_return_data. }
  assert (F : returnsFailure failedRead).
  { eexists. reflexivity. }
  split; [auto |].
  exact (C3_failed_read_exits_1_without_close (P := recorder)
           defaults _ Stdin _ _ _ I D F).
Defined.

(** * The end of the stream *)

(** C4.  When, after reads that all returned data, a read returns zero
    bytes and the end of the stream, [Close] is called exactly once, as
    the last call of the run but for the emissions [Close] makes, and the
    process exits with status 0. *)
Theorem C4_end_of_stream_closes_once_and_exits_0
    {MG : Type} {P : Pipeline MG}
    (cfg : Config) (env : Env) (src : InputSrc)
    (pre : list ReadResult) (last : ReadResult) (rest : list ReadResult) :
  ingests cfg env src (pre ++ last :: rest) ->
  Forall returnsData pre ->
  returnsEOF last ->
  outcome (main cfg env) = Some (Exited 0)
  /\ closes (trace (main cfg env)) = 1%nat
  /\ exists t es,
       trace (main cfg env) = t ++ EvClose :: map EvEmission es
       /\ closes t = O.
Proof.
  intros H Hp Hl.
  destruct (run_at_eof cfg env src pre last rest H Hp Hl) as (O & C & _).
  destruct (run_ends_with_close cfg env src pre last rest H Hp Hl)
    as (t & es & T & _ & Z).
  repeat split; auto. exists t, es. auto.
Qed.

(** C4 on a run of three reads of data and the end of the stream, with
    the pipeline on a stuck sink. *)
Lemma C4_end_of_stream_witness :
  (ingests defaults (stdinEnv (sampleReads ++ [eofRead])) Stdin
     (sampleReads ++ eofRead :: [])
   /\ Forall returnsData sampleReads
   /\ returnsEOF eofRead)
  /\ outcome (main (P := lossy) defaults
                (stdinEnv (sampleReads ++ [eofRead]))) = Some (Exited 0)
  /\ closes (trace (main (P := lossy) defaults
                      (stdinEnv (sampleReads ++ [eofRead])))) = 1%nat
  /\ exists t es,
       trace (main (P := lossy) defaults
                (stdinEnv (sampleReads ++ [eofRead])))
       = t ++ EvClose :: map EvEmission es
       /\ closes t = O.
Proof.
  assert (I : ingests defaults (stdinEnv (sampleReads ++ [eofRead])) Stdin
                (sampleReads ++ eofRead :: [])).
  { reaches_loop. }
  assert (D : Forall returnsData sampleReads).
  { unfold sampleReads, returnsData. all_return_data. }
  assert (E : returnsEOF eofRead).
  { split; reflexivity. }
  split; [auto |].
  exact (C4_end_of_stream_closes_once_and_exits_0 (P := lossy)
           defaults _ Stdin _ _ _ I D E).
Defined.

(** * Deliveries and the loop *)


(** The ways the loop ends: it breaks at a read of zero bytes with the end
    of the stream, it ends the process with status 1 at a failed read, or
    it is still reading. *)
Lemma loopEnd_cases (rs : list ReadResult) :
  match loopEnd rs with
  | None =>
    exists pre last rest,
      rs = pre ++ last :: rest /\ Forall returnsData pre /\ returnsEOF last
  | Some (Exited code) =>
    code = 1
    /\ exists pre bad rest,
         rs = pre ++ bad :: rest /\ Forall returnsData pre
         /\ returnsFailure bad
  | Some Blocked => Forall returnsData rs
  | Some Panicked => False
  end.
Proof.
  destruct (split_at_stop rs) as [D | (pre & x & rest & -> & D & X)].
  - rewrite (loopEnd_data rs D). now apply reads_are_data.
  - destruct (not_data_cases x X) as [(E & F) | (E & F)].
    + rewrite (loopEnd_eof pre x rest D E).
      exists pre, x, rest. repeat split.
      * now apply reads_are_data.
      * now apply stopsAtEOF_iff.
      * now apply stopsAtEOF_iff.
    + rewrite (loopEnd_failure pre x rest D F). split; [reflexivity |].
      exists pre, x, rest. repeat split.
      * now apply reads_are_data.
      * now apply isReadFailure_iff.
Qed.



(** * The window size and the number of chunks *)

(** C6, the claim refuted.  The claim: -maxChunks and -liveWindowSize set
    the same quantity, the capacity of the live window, so that the
    capacity of the pipeline equals the value of either option.  They are
    two flags with two defaults, 5 and 3, and [main] passes them as two
    arguments of [New]: with the defaults, neither argument equals both
    options. *)
Lemma C6_max_chunks_is_not_the_window_size :
  fileNumberLength defaults = 5
  /\ liveWindowSize defaults = 3
  /\ exists a t t',
       trace defaultRun = t ++ EvNewMG a :: t'
       /\ arg_fileNumberLength a = 5
       /\ arg_liveWindowSize a = 3
       /\ ~ (arg_liveWindowSize a = fileNumberLength defaults
             /\ arg_liveWindowSize a = liveWindowSize defaults)
       /\ ~ (arg_fileNumberLength a = fileNumberLength defaults
             /\ arg_fileNumberLength a = liveWindowSize defaults).
Proof.
  repeat split.
  eexists. exists [EvMkdirAll "./results" 484]. eexists.
  repeat split; simpl; intros [X Y]; discriminate.
Qed.

(** C6, amended.  -maxChunks and -liveWindowSize are two options, each
    passed unchanged to the pipeline as an argument of its own: the live
    window size of the pipeline is the value of -liveWindowSize, and the
    value of -maxChunks is the argument that follows the name of the
    manifest. *)
Theorem C6_window_size_and_max_chunks_are_passed_apart
    {MG : Type} {P : Pipeline MG} (cfg : Config) (env : Env) (a : MGArgs) :
  In (EvNewMG a) (trace (main cfg env)) ->
  arg_liveWindowSize a = liveWindowSize cfg
  /\ arg_fileNumberLength a = fileNumberLength cfg.
Proof.
  intros H. destruct (main_newMG cfg env a H) as (_ & h & s & _ & -> & _).
  split; reflexivity.
Qed.

(** The amended C6 on the defaults. *)
Lemma C6_passed_apart_witness :
  In (EvNewMG (newArgs defaults (loggerOf defaults) None None))
     (trace defaultRun)
  /\ arg_liveWindowSize (newArgs defaults (loggerOf defaults) None None) = 3
  /\ arg_fileNumberLength (newArgs defaults (loggerOf defaults) None None)
     = 5.
Proof.
  assert (I : In (EvNewMG (newArgs defaults (loggerOf defaults) None None))
                (trace defaultRun)).
  { simpl. right. left. reflexivity. }
  split; [exact I |].
  exact (C6_window_size_and_max_chunks_are_passed_apart (P := recorder)
           defaults (stdinEnv [eofRead]) _ I).
Defined.

(** * The source of the input *)

Lemma consumed_prefix (rs : list ReadResult) :
  exists n, consumed rs = firstn n rs.
Proof.
  induction rs as [| rd rs (n & IH)].
  - exists O. reflexivity.
  - simpl. destruct (isData rd).
    + exists (S n). simpl. now rewrite IH.
    + exists 1%nat. reflexivity.
Qed.

(** All the reads of a run are made on the reader that [openInput] built,
    and they are the first reads this reader has to return. *)
Lemma main_reads {MG : Type} {P : Pipeline MG} (cfg : Config) (env : Env)
    (t1 : list Event) (r : Reader) :
  openInput cfg env = (t1, Ret r) ->
  exists n,
    readsOf (trace (main cfg env))
    = map (pair (rd_src r)) (firstn n (rd_pending r)).
Proof.
  intros I.
  destruct (startup cfg env) as [t0 [mg | o]] eqn:S.
  - rewrite (main_ingests cfg env _ _ _ _ S I). unfold trace at 1. simpl fst.
    pose proof (startup_events (P := P) cfg env) as E0. rewrite S in E0.
    pose proof (openInput_events cfg env) as E1. rewrite I in E1.
    unfold trace in E0, E1. simpl in E0, E1.
    rewrite !readsOf_app.
    rewrite (no_read_outside_loop t0), (no_read_outside_loop t1).
    + unfold ingest. destruct (rd_src r) as [| [c |]] eqn:Src.
      * rewrite loop_reads. destruct (consumed_prefix (rd_pending r)) as (n & ->).
        now exists n.
      * rewrite loop_reads. destruct (consumed_prefix (rd_pending r)) as (n & ->).
        now exists n.
      * exists O. reflexivity.
    + eapply Forall_impl; [| exact E1]. intros e. apply input_event_not_loop.
    + eapply Forall_impl; [| exact E0]. intros e He.
      apply startup_event_not_later in He. apply He.
  - rewrite (main_startup_halts cfg env _ _ S). unfold trace. simpl fst.
    pose proof (startup_events (P := P) cfg env) as E0. rewrite S in E0.
    unfold trace in E0. simpl in E0.
    rewrite (no_read_outside_loop t0).
    + exists O. reflexivity.
    + eapply Forall_impl; [| exact E0]. intros e He.
      apply startup_event_not_later in He. apply He.
Qed.

(** A test that holds of every event of a trace keeps the trace, and one
    that holds of none leaves nothing. *)
Lemma filter_all (keep : Event -> bool) (t : list Event) :
  Forall (fun e => keep e = true) t -> filter keep t = t.
Proof.
  induction 1 as [| e t He _ IH]; simpl; [reflexivity |].
  now rewrite He, IH.
Qed.

Lemma filter_none (keep : Event -> bool) (t : list Event) :
  Forall (fun e => keep e = false) t -> filter keep t = [].
Proof.
  induction 1 as [| e t He _ IH]; simpl; [reflexivity |].
  now rewrite He.
Qed.

(** In a run whose start-up passes, what is listened on and accepted is
    what the opening of the input listens on and accepts. *)
Lemma main_input_events {MG : Type} {P : Pipeline MG}
    (cfg : Config) (env : Env) (t0 : list Event) (mg : MG) :
  startup cfg env = (t0, Ret mg) ->
  filter isInputEv (trace (main cfg env)) = trace (openInput cfg env).
Proof.
  intros S.
  pose proof (startup_events (P := P) cfg env) as E0. rewrite S in E0.
  pose proof (openInput_events cfg env) as E1.
  unfold trace in E0. simpl in E0.
  assert (F0 : filter isInputEv t0 = []).
  { apply filter_none. eapply Forall_impl; [| exact E0]. intros e He.
    apply startup_event_not_later in He. apply He. }
  destruct (openInput cfg env) as [t1 [r | o]] eqn:I;
    unfold trace in E1; simpl in E1.
  - rewrite (main_ingests cfg env _ _ _ _ S I). unfold trace at 1 3.
    cbn [fst]. rewrite !filter_app, F0, (filter_all _ _ E1).
    rewrite (filter_none isInputEv (trace (ingest r mg))).
    + now rewrite app_nil_r.
    + eapply Forall_impl; [| apply (ingest_events (P := P))].
      intros e. apply loop_event_not_input.
  - rewrite (main_input_halts cfg env _ _ _ _ S I). unfold trace.
    cbn [fst]. now rewrite filter_app, F0, (filter_all _ _ E1).
Qed.

(** C7.  The input kind selects where the bytes come from.  With
    -inputType=2 the process listens on ":" followed by the local port
    and, when a connection is accepted, the reader is built on this
    connection.  With any other input kind the reader is built on standard
    input.  In a run whose start-up passes: with -inputType=2 the process
    listens on that address and, when a connection is accepted, it listens
    and accepts once, and the reads of the run are the reads of this
    connection, all of them up to and with the first that ends the loop,
    and the slices forwarded are those of the reads of data among them;
    with any other input kind nothing is listened on or accepted, and the
    reads of the run are in the same way those of standard input. *)
Theorem C7_input_kind_selects_the_source {MG : Type} {P : Pipeline MG}
    (cfg : Config) (env : Env) :
  (inputType cfg = 2 ->
   exists t,
     trace (openInput cfg env)
     = EvListen "tcp" (String.append ":" (Itoa (localPort cfg))) :: t)
  /\ (inputType cfg = 2 ->
   forall ln c,
     netListen env "tcp" (listenAddress cfg) = Some ln ->
     lnAccept env ln = Some c ->
     openInput cfg env
     = ([EvListen "tcp" (String.append ":" (Itoa (localPort cfg)));
         EvAccept ln],
        Ret {| rd_src := TCPConn (Some c); rd_pending := connReads env c |}))
  /\ (inputType cfg <> 2 ->
      openInput cfg env
      = ([], Ret {| rd_src := Stdin; rd_pending := stdinReads env |}))
  /\ (logOpens env cfg = true ->
      rejected cfg = false ->
      (inputType cfg = 2 ->
       In (EvListen "tcp" (String.append ":" (Itoa (localPort cfg))))
          (trace (main cfg env))
       /\ forall ln c,
            netListen env "tcp" (listenAddress cfg) = Some ln ->
            lnAccept env ln = Some c ->
            filter isInputEv (trace (main cfg env))
            = [EvListen "tcp" (String.append ":" (Itoa (localPort cfg)));
               EvAccept ln]
            /\ readsOf (trace (main cfg env))
               = map (pair (TCPConn (Some c))) (consumed (connReads env c))
            /\ forwarded (trace (main cfg env))
               = map rr_bytes
                   (filter isData (consumed (connReads env c))))
      /\ (inputType cfg <> 2 ->
          filter isInputEv (trace (main cfg env)) = []
          /\ readsOf (trace (main cfg env))
             = map (pair Stdin) (consumed (stdinReads env))
          /\ forwarded (trace (main cfg env))
             = map rr_bytes (filter isData (consumed (stdinReads env)))))
  /\ (forall rs, Forall returnsData rs -> consumed rs = rs)
  /\ (forall pre x rest,
        Forall returnsData pre -> ~ returnsData x ->
        consumed (pre ++ x :: rest) = pre ++ [x]).
Proof.
  assert (I2 : inputType cfg = 2 ->
               forall ln c,
                 netListen env "tcp" (listenAddress cfg) = Some ln ->
                 lnAccept env ln = Some c ->
                 openInput cfg env
                 = ([EvListen "tcp"
                       (String.append ":" (Itoa (localPort cfg)));
                     EvAccept ln],
                    Ret {| rd_src := TCPConn (Some c);
                           rd_pending := connReads env c |})).
  { intros T ln c L A. unfold openInput. rewrite T, Z.eqb_refl.
    unfold listenAddress in L. rewrite L.
    unfold bufioNewReader. rewrite A. reflexivity. }
  assert (I1 : inputType cfg <> 2 ->
               openInput cfg env
               = ([], Ret {| rd_src := Stdin;
                             rd_pending := stdinReads env |})).
  { intros T. unfold openInput. apply Z.eqb_neq in T. now rewrite T. }
  assert (IL : inputType cfg = 2 ->
               exists t,
                 trace (openInput cfg env)
                 = EvListen "tcp"
                     (String.append ":" (Itoa (localPort cfg))) :: t).
  { intros T. unfold openInput. rewrite T, Z.eqb_refl.
    destruct (netListen env "tcp"
                (String.append ":" (Itoa (localPort cfg))));
      eexists; reflexivity. }
  split; [exact IL |]. split; [exact I2 |]. split; [exact I1 |].
  split; [| split].
  - intros L R.
    destruct (startup_passes (P := P) cfg env L R) as (tu & h & s & U & S).
    pose proof (main_input_events cfg env _ _ S) as F.
    split.
    + intros T. split.
      * destruct (IL T) as (t & E). rewrite E in F.
        assert (K : In (EvListen "tcp"
                          (String.append ":" (Itoa (localPort cfg))))
                      (filter isInputEv (trace (main cfg env)))).
        { rewrite F. now left. }
        apply filter_In in K. apply K.
      * intros ln c Hl Ha. pose proof (I2 T ln c Hl Ha) as I.
        assert (G : ingests cfg env (TCPConn (Some c)) (connReads env c)).
        { repeat split; auto; [eexists; exact I | discriminate]. }
        rewrite F, I.
        rewrite (run_reads cfg env _ _ G), (run_forwarded cfg env _ _ G).
        repeat split.
    + intros T. pose proof (I1 T) as I.
      assert (G : ingests cfg env Stdin (stdinReads env)).
      { repeat split; auto; [eexists; exact I | discriminate]. }
      rewrite F, I.
      rewrite (run_reads cfg env _ _ G), (run_forwarded cfg env _ _ G).
      repeat split.
  - intros rs D. apply data_reads in D.
    induction D as [| rd rs Hrd _ IH]; simpl; [reflexivity |].
    now rewrite Hrd, IH.
  - intros pre x rest D X. apply data_reads in D.
    apply consumed_stops; [exact D |].
    destruct (isData x) eqn:E; [| reflexivity].
    apply isData_iff in E. contradiction.
Qed.

(** C7 on -inputType=2, where the connection 7 is accepted: the process
    listens and accepts once, and makes the four reads of the connection
    and no other. *)
Lemma C7_tcp_input_witness :
  (logOpens (tcpEnv (Some 7%nat) (sampleReads ++ [eofRead])) tcpInput = true
   /\ rejected tcpInput = false
   /\ inputType tcpInput = 2
   /\ netListen (tcpEnv (Some 7%nat) (sampleReads ++ [eofRead])) "tcp"
        (listenAddress tcpInput) = Some 1%nat
   /\ lnAccept (tcpEnv (Some 7%nat) (sampleReads ++ [eofRead])) 1%nat
      = Some 7%nat)
  /\ filter isInputEv
       (trace (main (P := recorder) tcpInput
                 (tcpEnv (Some 7%nat) (sampleReads ++ [eofRead]))))
     = [EvListen "tcp" ":2002"; EvAccept 1%nat]
  /\ readsOf (trace (main (P := recorder) tcpInput
                       (tcpEnv (Some 7%nat) (sampleReads ++ [eofRead]))))
     = map (pair (TCPConn (Some 7%nat))) (sampleReads ++ [eofRead])
  /\ forwarded (trace (main (P := recorder) tcpInput
                         (tcpEnv (Some 7%nat) (sampleReads ++ [eofRead]))))
     = map rr_bytes sampleReads.
Proof.
  split; [repeat split |].
  exact (proj2
           (proj1
              (proj1 (proj2 (proj2 (proj2
                 (C7_input_kind_selects_the_source (P := recorder) tcpInput
                    (tcpEnv (Some 7%nat) (sampleReads ++ [eofRead]))))))
                 eq_refl eq_refl)
              eq_refl)
           1%nat 7%nat eq_refl eq_refl).
Defined.

(** * The uploaders *)

Lemma isHTTPOut_iff (cfg : Config) :
  isHTTPOut cfg = true
  <-> mediaDestinationType cfg = 2 \/ mediaDestinationType cfg = 3
      \/ manifestDestinationType cfg = 2.
Proof.
  unfold isHTTPOut.
  destruct (mediaDestinationType cfg =? 2) eqn:A;
    destruct (mediaDestinationType cfg =? 3) eqn:B;
    destruct (manifestDestinationType cfg =? 2) eqn:C; simpl;
    rewrite ?Z.eqb_eq, ?Z.eqb_neq in *; intuition congruence.
Qed.

Lemma isS3Out_iff (cfg : Config) :
  isS3Out cfg = true
  <-> mediaDestinationType cfg = 4 \/ manifestDestinationType cfg = 3.
Proof.
  unfold isS3Out.
  destruct (mediaDestinationType cfg =? 4) eqn:A;
    destruct (manifestDestinationType cfg =? 3) eqn:B; simpl;
    rewrite ?Z.eqb_eq, ?Z.eqb_neq in *; intuition congruence.
Qed.

Lemma newUploaders_at_most_one (cfg : Config) (log : Logger) :
  (uploadersBuilt (trace (newUploaders cfg log)) <= 1)%nat.
Proof.
  destruct (newUploaders_cases cfg log)
    as [(_ & u & ->) | [(_ & _ & u & ->) | (_ & _ & ->)]];
    unfold uploadersBuilt, trace; simpl; lia.
Qed.

Lemma main_uploaders_at_most_one {MG : Type} {P : Pipeline MG}
    (cfg : Config) (env : Env) :
  (uploadersBuilt (trace (main cfg env)) <= 1)%nat.
Proof.
  destruct (main_trace (P := P) cfg env) as (t1 & t2 & -> & E1 & E2).
  rewrite uploadersBuilt_app, (no_uploader_after_startup (t1 ++ t2)).
  2:{ apply Forall_app. split.
      - eapply Forall_impl; [| exact E1]. intros e. apply input_event_not_startup.
      - eapply Forall_impl; [| exact E2]. intros e. apply loop_event_not_startup. }
  rewrite Nat.add_0_r.
  destruct (startup_cases (P := P) cfg env)
    as [(_ & ->) | [(_ & _ & ->) | (_ & _ & tu & h & s & U & ->)]];
    unfold trace; simpl fst.
  - unfold uploadersBuilt. simpl. lia.
  - unfold logTrace. destruct (String.eqb _ _); unfold uploadersBuilt; simpl; lia.
  - pose proof (newUploaders_at_most_one cfg (loggerOf cfg)) as M.
    rewrite U in M. unfold trace in M. simpl in M.
    rewrite !uploadersBuilt_app.
    assert (L0 : uploadersBuilt (logTrace cfg) = O).
    { unfold logTrace. destruct (String.eqb _ _); reflexivity. }
    assert (M0 : uploadersBuilt (mkdirTrace cfg) = O).
    { unfold mkdirTrace. destruct (_ || _); reflexivity. }
    rewrite L0, M0.
    change (uploadersBuilt [EvNewMG (newArgs cfg (loggerOf cfg) h s)])
      with O.
    lia.
Qed.

(** C8.  At most one uploader is built, and HTTP goes before object
    storage.  In every run at most one uploader is built and the manifest
    generator is given at most one.  When the chunks go to HTTP (2 or 3) or
    the manifest goes to HTTP (2), the HTTP uploader is built and given,
    and no S3 uploader is built: the manifest generator is given nil in its
    place, also when the other destination is S3. *)
Theorem C8_http_uploader_excludes_s3 {MG : Type} {P : Pipeline MG}
    (cfg : Config) (env : Env) :
  (uploadersBuilt (trace (main cfg env)) <= 1)%nat
  /\ forall a,
       In (EvNewMG a) (trace (main cfg env)) ->
       (arg_httpUploader a = None \/ arg_s3Uploader a = None)
       /\ (mediaDestinationType cfg = 2 \/ mediaDestinationType cfg = 3
           \/ manifestDestinationType cfg = 2 ->
           (exists u, arg_httpUploader a = Some u)
           /\ arg_s3Uploader a = None
           /\ forall u, ~ In (EvNewS3Uploader u) (trace (main cfg env))).
Proof.
  split; [apply main_uploaders_at_most_one |].
  intros a H.
  destruct (main_newMG cfg env a H)
    as (tu & h & s & U & -> & _ & t & t' & T & Nt & Nt').
  destruct (newUploaders_cases cfg (loggerOf cfg))
    as [(Hh & u & U') | [(Hh & _ & u & U') | (Hh & _ & U')]];
    rewrite U' in U; injection U as <- <- <-; simpl.
  - split; [right; reflexivity |]. intros _.
    split; [exists u; reflexivity |]. split; [reflexivity |].
    intros u' I. rewrite T in I.
    apply in_app_or in I. destruct I as [I | I].
    { rewrite Forall_forall in Nt. specialize (Nt _ I). discriminate Nt. }
    simpl in I. destruct I as [I | [I | I]]; try discriminate I.
    rewrite Forall_forall in Nt'. specialize (Nt' _ I). discriminate Nt'.
  - split; [left; reflexivity |]. intros K.
    apply isHTTPOut_iff in K. congruence.
  - split; [left; reflexivity |]. intros K.
    apply isHTTPOut_iff in K. congruence.
Qed.

(** C8 on chunks to S3 (4) and the manifest to HTTP (2): the HTTP
    uploader is given, and nil for the S3 uploader. *)
Lemma C8_s3_media_http_manifest_witness :
  (In (EvNewMG (newArgs s3MediaHTTPManifest (loggerOf s3MediaHTTPManifest)
                  (Some defaultHTTPUploader) None))
      (trace s3MediaHTTPManifestRun)
   /\ mediaDestinationType s3MediaHTTPManifest = 4
   /\ manifestDestinationType s3MediaHTTPManifest = 2)
  /\ (exists u,
        arg_httpUploader
          (newArgs s3MediaHTTPManifest (loggerOf s3MediaHTTPManifest)
             (Some defaultHTTPUploader) None) = Some u)
  /\ arg_s3Uploader
       (newArgs s3MediaHTTPManifest (loggerOf s3MediaHTTPManifest)
          (Some defaultHTTPUploader) None) = None
  /\ forall u, ~ In (EvNewS3Uploader u) (trace s3MediaHTTPManifestRun).
Proof.
  assert (I : In (EvNewMG (newArgs s3MediaHTTPManifest
                             (loggerOf s3MediaHTTPManifest)
                             (Some defaultHTTPUploader) None))
                (trace s3MediaHTTPManifestRun)).
  { simpl. right. left. reflexivity. }
  split; [repeat split; exact I |].
  exact (proj2 (proj2 (C8_http_uploader_excludes_s3 (P := recorder)
                         s3MediaHTTPManifest (stdinEnv [eofRead]))
                  _ I)
           (or_intror (or_intror eq_refl))).
Defined.

(** * What is forwarded *)








(** * A port that cannot be listened on *)

(** C10, the claim refuted.  The claim: when listening on the port fails,
    the reader is built from a nil connection.  No reader is built then:
    the listener that [net.Listen] returned is nil, and the call of its
    [Accept] panics.  So it is in the environment where no port can be
    listened on, and there is no configuration and environment where
    listening fails and a reader is built. *)
Lemma C10_no_reader_is_built_when_listen_fails :
  netListen (stdinEnv []) "tcp" (listenAddress tcpInput) = None
  /\ openInput tcpInput (stdinEnv [])
     = ([EvListen "tcp" ":2002"], Halt Panicked)
  /\ ~ exists cfg env t r,
         inputType cfg = 2
         /\ netListen env "tcp" (listenAddress cfg) = None
         /\ openInput cfg env = (t, Ret r).
Proof.
  repeat split.
  intros (cfg & env & t & r & T & L & I).
  unfold openInput, listenAddress in *. rewrite T, Z.eqb_refl, L in I.
  discriminate I.
Qed.

(** C10, amended.  With -inputType=2 the errors of [net.Listen] and of
    [Accept] are dropped unchecked.  When listening fails, [Accept] is
    called on the nil listener and the process panics before a reader is
    built; when listening succeeds and [Accept] fails, the reader is built
    on the nil connection and the process panics at its first read.  In
    both cases nothing is read, and the run does not end by the exit with
    status 1 of a failed read. *)
Theorem C10_listen_and_accept_errors_are_dropped
    {MG : Type} {P : Pipeline MG} (cfg : Config) (env : Env) :
  inputType cfg = 2 ->
  (netListen env "tcp" (listenAddress cfg) = None ->
   openInput cfg env
   = ([EvListen "tcp" (listenAddress cfg)], Halt Panicked)
   /\ (logOpens env cfg = true -> rejected cfg = false ->
       outcome (main cfg env) = Some Panicked
       /\ readsOf (trace (main cfg env)) = []))
  /\ (forall ln,
        netListen env "tcp" (listenAddress cfg) = Some ln ->
        lnAccept env ln = None ->
        openInput cfg env
        = ([EvListen "tcp" (listenAddress cfg); EvAccept ln],
           Ret {| rd_src := TCPConn None; rd_pending := [] |})
        /\ (logOpens env cfg = true -> rejected cfg = false ->
            outcome (main cfg env) = Some Panicked
            /\ readsOf (trace (main cfg env)) = [])).
Proof.
  intros T.
  assert (NR : forall t0 t1,
             Forall (fun e => isStartupEv e = true) t0 ->
             Forall (fun e => isInputEv e = true) t1 ->
             readsOf (t0 ++ t1) = []).
  { intros t0 t1 E0 E1.
    rewrite readsOf_app, (no_read_outside_loop t0), (no_read_outside_loop t1).
    - reflexivity.
    - eapply Forall_impl; [| exact E1]. intros e. apply input_event_not_loop.
    - eapply Forall_impl; [| exact E0]. intros e He.
      apply startup_event_not_later in He. apply He. }
  split.
  - intros L.
    assert (I : openInput cfg env
                = ([EvListen "tcp" (listenAddress cfg)], Halt Panicked)).
    { unfold openInput, listenAddress in *. now rewrite T, Z.eqb_refl, L. }
    split; [exact I |]. intros Lg R.
    destruct (startup_passes (P := P) cfg env Lg R) as (tu & h & s & U & S).
    rewrite (main_input_halts cfg env _ _ _ _ S I).
    split; [reflexivity |]. unfold trace. simpl fst.
    apply NR.
    + pose proof (startup_events (P := P) cfg env) as E. now rewrite S in E.
    + pose proof (openInput_events cfg env) as E. now rewrite I in E.
  - intros ln L A.
    assert (I : openInput cfg env
                = ([EvListen "tcp" (listenAddress cfg); EvAccept ln],
                   Ret {| rd_src := TCPConn None; rd_pending := [] |})).
    { unfold openInput, listenAddress in *. rewrite T, Z.eqb_refl, L.
      unfold bufioNewReader. rewrite A. reflexivity. }
    split; [exact I |]. intros Lg R.
    destruct (startup_passes (P := P) cfg env Lg R) as (tu & h & s & U & S).
    rewrite (main_ingests cfg env _ _ _ _ S I).
    split; [reflexivity |]. unfold trace at 1. simpl fst.
    unfold ingest. simpl. rewrite ?app_nil_r.
    apply NR.
    + pose proof (startup_events (P := P) cfg env) as E. now rewrite S in E.
    + pose proof (openInput_events cfg env) as E. now rewrite I in E.
Qed.

(** The amended C10 where listening fails, and where listening succeeds
    and accepting fails. *)
Lemma C10_dropped_errors_witness :
  (inputType tcpInput = 2
   /\ netListen (stdinEnv []) "tcp" (listenAddress tcpInput) = None
   /\ logOpens (stdinEnv []) tcpInput = true
   /\ rejected tcpInput = false)
  /\ (outcome (main (P := recorder) tcpInput (stdinEnv [])) = Some Panicked
      /\ readsOf (trace (main (P := recorder) tcpInput (stdinEnv []))) = [])
  /\ (netListen (tcpEnv None []) "tcp" (listenAddress tcpInput) = Some 1%nat
      /\ lnAccept (tcpEnv None []) 1%nat = None)
  /\ openInput tcpInput (tcpEnv None [])
     = ([EvListen "tcp" ":2002"; EvAccept 1%nat],
        Ret {| rd_src := TCPConn None; rd_pending := [] |})
  /\ outcome (main (P := recorder) tcpInput (tcpEnv None []))
     = Some Panicked.
Proof.
  split; [repeat split |].
  split.
  { exact (proj2 (proj1 (C10_listen_and_accept_errors_are_dropped
                           (P := recorder) tcpInput (stdinEnv []) eq_refl)
                    eq_refl)
             eq_refl eq_refl). }
  split; [repeat split |].
  pose proof (proj2 (C10_listen_and_accept_errors_are_dropped
                       (P := recorder) tcpInput (tcpEnv None []) eq_refl)
                1%nat eq_refl eq_refl) as [I O].
  split; [exact I |]. exact (proj1 (O eq_refl eq_refl)).
Defined.

(** * The ways a run can go *)

(** What comes before the loop has no call of the loop. *)
Lemma before_loop_events {MG : Type} {P : Pipeline MG}
    (cfg : Config) (env : Env) :
  Forall (fun e => isLoopEv e = false)
    (trace (startup cfg env) ++ trace (openInput cfg env)).
Proof.
  apply Forall_app. split.
  - eapply Forall_impl; [| apply (startup_events (P := P))].
    intros e He. apply startup_event_not_later in He. apply He.
  - eapply Forall_impl; [| apply openInput_events].
    intros e. apply input_event_not_loop.
Qed.

(** Every run goes one of four ways: the log file does not open; the
    start-up validation rejects the configuration; the TCP input cannot be
    opened and the process panics, before any read; or the loop is
    reached, on standard input unless the input kind is 2. *)
Lemma main_cases {MG : Type} {P : Pipeline MG} (cfg : Config) (env : Env) :
  (logOpens env cfg = false
   /\ main cfg env = ([EvOpenFile (logPath cfg)], Halt (Exited (-1))))
  \/ (logOpens env cfg = true /\ rejected cfg = true
      /\ main cfg env = (logTrace cfg, Halt (Exited 1)))
  \/ (logOpens env cfg = true /\ rejected cfg = false
      /\ inputType cfg = 2
      /\ outcome (main cfg env) = Some Panicked
      /\ Forall (fun e => isLoopEv e = false) (trace (main cfg env)))
  \/ (exists src rs,
        ingests cfg env src rs
        /\ (inputType cfg <> 2 -> src = Stdin /\ rs = stdinReads env)).
Proof.
  destruct (logOpens env cfg) eqn:L.
  2:{ left. split; [reflexivity |].
      apply main_startup_halts. now apply startup_log_fails. }
  right. destruct (rejected cfg) eqn:R.
  { left. repeat split. now apply rejected_exits_1. }
  right.
  destruct (startup_passes (P := P) cfg env L R) as (tu & h & s & U & S).
  pose proof (before_loop_events (P := P) cfg env) as B.
  destruct (inputType cfg =? 2) eqn:T.
  - apply Z.eqb_eq in T.
    destruct (netListen env "tcp" (String.append ":" (Itoa (localPort cfg))))
      as [ln |] eqn:N.
    + destruct (lnAccept env ln) as [c |] eqn:A.
      * right. exists (TCPConn (Some c)), (connReads env c).
        split; [| intros X; now elim X].
        repeat split; auto; [| discriminate].
        eexists. unfold openInput. rewrite T, Z.eqb_refl, N.
        unfold bufioNewReader. rewrite A. reflexivity.
      * assert (I : openInput cfg env
                    = ([EvListen "tcp"
                          (String.append ":" (Itoa (localPort cfg)));
                        EvAccept ln],
                       Ret {| rd_src := TCPConn None; rd_pending := [] |})).
        { unfold openInput. rewrite T, Z.eqb_refl, N.
          unfold bufioNewReader. rewrite A. reflexivity. }
        left. do 3 (split; [first [assumption | reflexivity] |]).
        rewrite (main_ingests cfg env _ _ _ _ S I).
        split; [reflexivity |].
        rewrite S, I in B. unfold trace in *. simpl fst in *.
        unfold ingest. simpl. now rewrite ?app_nil_r.
    + assert (I : openInput cfg env
                  = ([EvListen "tcp"
                        (String.append ":" (Itoa (localPort cfg)))],
                     Halt Panicked)).
      { unfold openInput. now rewrite T, Z.eqb_refl, N. }
      left. do 3 (split; [first [assumption | reflexivity] |]).
      rewrite (main_input_halts cfg env _ _ _ _ S I).
      split; [reflexivity |].
      rewrite S, I in B. exact B.
  - right. exists Stdin, (stdinReads env). split; [| auto].
    repeat split; auto; [| discriminate].
    eexists. unfold openInput. rewrite T. reflexivity.
Qed.

(** The loop never ends with a panic, and it ends the process with no
    other status than 1. *)
Lemma loopEnd_values (rs : list ReadResult) :
  loopEnd rs = None \/ loopEnd rs = Some (Exited 1)
  \/ loopEnd rs = Some Blocked.
Proof.
  pose proof (loopEnd_cases rs) as C.
  destruct (loopEnd rs) as [[code | |] |]; auto.
  - destruct C as [-> _]. auto.
  - contradiction.
Qed.

(** * The exit statuses *)

Lemma logOpens_false_iff (env : Env) (cfg : Config) :
  logOpens env cfg = false
  <-> logPath cfg <> ""%string /\ openFile env (logPath cfg) = false.
Proof.
  unfold logOpens. rewrite orb_false_iff, String.eqb_neq. tauto.
Qed.

(** The outcome of a run that reaches the loop is never the exit with -1
    nor a panic. *)
Lemma run_outcome_values {MG : Type} {P : Pipeline MG}
    (cfg : Config) (env : Env) (src : InputSrc) (rs : list ReadResult) :
  ingests cfg env src rs ->
  (outcome (main cfg env) = Some (Exited 0) /\ loopEnd rs = None)
  \/ (outcome (main cfg env) = Some (Exited 1)
      /\ loopEnd rs = Some (Exited 1))
  \/ (outcome (main cfg env) = Some Blocked /\ loopEnd rs = Some Blocked).
Proof.
  intros H. rewrite (run_outcome cfg env src rs H).
  destruct (loopEnd_values rs) as [-> | [-> | ->]]; auto.
Qed.

(** X1.  The process exits with status -1 exactly when a log path is given
    and the log file cannot be opened; it has then done nothing but try to
    open that file: nothing was validated, created, listened on or read. *)
Theorem X1_exit_minus_1_is_the_log_file {MG : Type} {P : Pipeline MG}
    (cfg : Config) (env : Env) :
  (outcome (main cfg env) = Some (Exited (-1))
   <-> logPath cfg <> ""%string /\ openFile env (logPath cfg) = false)
  /\ (outcome (main cfg env) = Some (Exited (-1)) ->
      trace (main cfg env) = [EvOpenFile (logPath cfg)]).
Proof.
  rewrite <- logOpens_false_iff.
  destruct (main_cases (P := P) cfg env)
    as [(L & M) | [(L & R & M) | [(L & R & T & O & _) | (src & rs & H & _)]]].
  - rewrite M. repeat split; auto.
  - rewrite M, L. repeat split; intros X; discriminate X.
  - rewrite O, L. repeat split; intros X; discriminate X.
  - assert (L : logOpens env cfg = true) by apply H.
    rewrite L.
    destruct (run_outcome_values cfg env src rs H)
      as [(O & _) | [(O & _) | (O & _)]];
      rewrite O; repeat split; intros X; discriminate X.
Qed.

(** X1 where no file can be opened and a log path is given. *)
Lemma X1_exit_minus_1_witness :
  outcome (main (P := recorder) withLogFile (readOnlyEnv [eofRead]))
  = Some (Exited (-1))
  /\ trace (main (P := recorder) withLogFile (readOnlyEnv [eofRead]))
     = [EvOpenFile "/var/log/tssegmenter.log"].
Proof.
  assert (O : outcome (main (P := recorder) withLogFile
                         (readOnlyEnv [eofRead]))
              = Some (Exited (-1))) by reflexivity.
  split; [exact O |].
  exact (proj2 (X1_exit_minus_1_is_the_log_file (P := recorder) withLogFile
                  (readOnlyEnv [eofRead])) O).
Defined.

(** X2.  When the log opens, the start-up ends the process with status 1,
    having built, listened on and read nothing, exactly for the
    configurations with auto PID detection off and an init-data mode other
    than [ChunkNoIni]; for every other configuration the manifest generator
    is built. *)
Theorem X2_start_up_rejects_manual_pids_with_init_data
    {MG : Type} {P : Pipeline MG} (cfg : Config) (env : Env) :
  logOpens env cfg = true ->
  (autoPID cfg = false
   /\ chunkInitType cfg <> manifestgenerator.ChunkNoIni ->
   main cfg env = (logTrace cfg, Halt (Exited 1)))
  /\ (~ (autoPID cfg = false
         /\ chunkInitType cfg <> manifestgenerator.ChunkNoIni) ->
      exists a, In (EvNewMG a) (trace (main cfg env))).
Proof.
  intros L. split.
  - intros R. apply rejected_iff in R. now apply rejected_exits_1.
  - intros R. rewrite <- rejected_iff in R. apply not_true_is_false in R.
    destruct (startup_passes (P := P) cfg env L R) as (tu & h & s & U & S).
    exists (newArgs cfg (loggerOf cfg) h s).
    destruct (main_trace (P := P) cfg env) as (t1 & t2 & -> & _).
    rewrite S. unfold trace. simpl fst.
    apply in_or_app. left.
    apply in_or_app. right. apply in_or_app. right.
    apply in_or_app. right. left. reflexivity.
Qed.

(** X2 on manual PIDs with init data at the start of each chunk, and on
    the defaults. *)
Lemma X2_start_up_witness :
  (logOpens (stdinEnv [eofRead]) manualInitStart = true
   /\ autoPID manualInitStart = false
   /\ chunkInitType manualInitStart <> manifestgenerator.ChunkNoIni)
  /\ main (P := recorder) manualInitStart (stdinEnv [eofRead])
     = ([], Halt (Exited 1))
  /\ exists a, In (EvNewMG a) (trace defaultRun).
Proof.
  assert (N : chunkInitType manualInitStart
              <> manifestgenerator.ChunkNoIni) by discriminate.
  split; [repeat split; exact N |].
  split.
  - exact (proj1 (X2_start_up_rejects_manual_pids_with_init_data
                    (P := recorder) manualInitStart (stdinEnv [eofRead])
                    eq_refl)
             (conj eq_refl N)).
  - apply (proj2 (X2_start_up_rejects_manual_pids_with_init_data
                    (P := recorder) defaults (stdinEnv [eofRead]) eq_refl)).
    intros [X _]. discriminate X.
Defined.

(** X3.  The process exits with status 0 only after the loop met a read
    of zero bytes with the end of the stream: the pipeline was then closed
    exactly once, every read before that one returned data, and all their
    slices were forwarded. *)
Theorem X3_exit_0_only_after_close {MG : Type} {P : Pipeline MG}
    (cfg : Config) (env : Env) :
  outcome (main cfg env) = Some (Exited 0) ->
  closes (trace (main cfg env)) = 1%nat
  /\ exists src pre last,
       readsOf (trace (main cfg env)) = map (pair src) (pre ++ [last])
       /\ Forall returnsData pre
       /\ returnsEOF last
       /\ forwarded (trace (main cfg env)) = map rr_bytes pre.
Proof.
  intros O.
  destruct (main_cases (P := P) cfg env)
    as [(L & M) | [(L & R & M) | [(L & R & T & O' & _) | (src & rs & H & _)]]].
  - rewrite M in O. discriminate O.
  - rewrite M in O. discriminate O.
  - rewrite O' in O. discriminate O.
  - destruct (run_outcome_values cfg env src rs H)
      as [(_ & E) | [(O' & _) | (O' & _)]];
      try (rewrite O' in O; discriminate O).
    pose proof (loopEnd_cases rs) as C. rewrite E in C.
    destruct C as (pre & last & rest & -> & Hp & Hl).
    destruct (run_at_eof cfg env src pre last rest H Hp Hl)
      as (_ & C & F & Rd).
    split; [exact C |]. exists src, pre, last. auto.
Qed.

(** X3 on the defaults and an input that ends at once. *)
Lemma X3_exit_0_witness :
  outcome defaultRun = Some (Exited 0)
  /\ closes (trace defaultRun) = 1%nat
  /\ exists src pre last,
       readsOf (trace defaultRun) = map (pair src) (pre ++ [last])
       /\ Forall returnsData pre
       /\ returnsEOF last
       /\ forwarded (trace defaultRun) = map rr_bytes pre.
Proof.
  assert (O : outcome defaultRun = Some (Exited 0)) by reflexivity.
  split; [exact O |].
  exact (X3_exit_0_only_after_close (P := recorder) defaults
           (stdinEnv [eofRead]) O).
Defined.

(** X4.  The process exits with status 1 for one of two reasons only: the
    start-up validation rejected the configuration, and then nothing was
    built or read; or a read returned an error other than the end of the
    stream, after reads that all returned data, and then the pipeline was
    not closed. *)
Theorem X4_exit_1_has_two_causes {MG : Type} {P : Pipeline MG}
    (cfg : Config) (env : Env) :
  outcome (main cfg env) = Some (Exited 1) ->
  (autoPID cfg = false
   /\ chunkInitType cfg <> manifestgenerator.ChunkNoIni
   /\ trace (main cfg env) = logTrace cfg)
  \/ (exists src pre bad,
        readsOf (trace (main cfg env)) = map (pair src) (pre ++ [bad])
        /\ Forall returnsData pre
        /\ returnsFailure bad
        /\ closes (trace (main cfg env)) = O).
Proof.
  intros O.
  destruct (main_cases (P := P) cfg env)
    as [(L & M) | [(L & R & M) | [(L & R & T & O' & _) | (src & rs & H & _)]]].
  - rewrite M in O. discriminate O.
  - left. apply rejected_iff in R. destruct R as [R1 R2].
    rewrite M. auto.
  - rewrite O' in O. discriminate O.
  - right.
    destruct (run_outcome_values cfg env src rs H)
      as [(O' & _) | [(_ & E) | (O' & _)]];
      try (rewrite O' in O; discriminate O).
    pose proof (loopEnd_cases rs) as C. rewrite E in C.
    destruct C as (_ & pre & bad & rest & -> & Hp & Hb).
    destruct (run_at_failure cfg env src pre bad rest H Hp Hb)
      as (_ & C & _ & Rd).
    exists src, pre, bad. auto.
Qed.

(** X4 on the run whose second read fails. *)
Lemma X4_exit_1_witness :
  outcome failedReadRun = Some (Exited 1)
  /\ ((autoPID defaults = false
       /\ chunkInitType defaults <> manifestgenerator.ChunkNoIni
       /\ trace failedReadRun = logTrace defaults)
      \/ (exists src pre bad,
            readsOf (trace failedReadRun) = map (pair src) (pre ++ [bad])
            /\ Forall returnsData pre
            /\ returnsFailure bad
            /\ closes (trace failedReadRun) = O)).
Proof.
  assert (O : outcome failedReadRun = Some (Exited 1)) by reflexivity.
  split; [exact O |].
  exact (X4_exit_1_has_two_causes (P := recorder) defaults
           (stdinEnv [dataRead [x47]%byte; failedRead; eofRead]) O).
Defined.

(** X5.  With an input kind other than 2 the process never listens, never
    accepts a connection and never panics. *)
Theorem X5_stdin_input_never_listens_nor_panics
    {MG : Type} {P : Pipeline MG} (cfg : Config) (env : Env) :
  inputType cfg <> 2 ->
  outcome (main cfg env) <> Some Panicked
  /\ Forall (fun e => isInputEv e = false) (trace (main cfg env)).
Proof.
  intros T. split.
  - destruct (main_cases (P := P) cfg env)
      as [(L & M) | [(L & R & M) | [(L & R & T' & _) | (src & rs & H & _)]]].
    + rewrite M. discriminate.
    + rewrite M. discriminate.
    + contradiction.
    + destruct (run_outcome_values cfg env src rs H)
        as [(O & _) | [(O & _) | (O & _)]]; rewrite O; discriminate.
  - assert (I : openInput cfg env
                = ([], Ret {| rd_src := Stdin;
                              rd_pending := stdinReads env |})).
    { unfold openInput. apply Z.eqb_neq in T. now rewrite T. }
    pose proof (startup_events (P := P) cfg env) as E0.
    destruct (startup cfg env) as [t0 [mg | o]] eqn:S;
      unfold trace in E0; simpl in E0.
    + rewrite (main_ingests cfg env _ _ _ _ S I). unfold trace at 1.
      simpl. apply Forall_app. split.
      * eapply Forall_impl; [| exact E0]. intros e He.
        apply startup_event_not_later in He. apply He.
      * eapply Forall_impl; [| apply (ingest_events (P := P))].
        intros e. apply loop_event_not_input.
    + rewrite (main_startup_halts cfg env _ _ S). unfold trace. simpl.
      eapply Forall_impl; [| exact E0]. intros e He.
      apply startup_event_not_later in He. apply He.
Qed.

(** X5 on the defaults, where no port can be listened on. *)
Lemma X5_stdin_input_witness :
  inputType defaults <> 2
  /\ outcome defaultRun <> Some Panicked
  /\ Forall (fun e => isInputEv e = false) (trace defaultRun).
Proof.
  assert (T : inputType defaults <> 2) by discriminate.
  split; [exact T |].
  exact (X5_stdin_input_never_listens_nor_panics (P := recorder) defaults
           (stdinEnv [eofRead]) T).
Defined.

(** * The calls of the start-up *)

(** The trace of the start-up, in the three ways it can go. *)
Lemma startup_trace_cases {MG : Type} {P : Pipeline MG}
    (cfg : Config) (env : Env) :
  (logOpens env cfg = false
   /\ trace (startup cfg env) = [EvOpenFile (logPath cfg)])
  \/ (logOpens env cfg = true /\ rejected cfg = true
      /\ trace (startup cfg env) = logTrace cfg)
  \/ (logOpens env cfg = true /\ rejected cfg = false
      /\ exists tu h s,
           newUploaders cfg (loggerOf cfg) = (tu, Ret (h, s))
           /\ trace (startup cfg env)
              = logTrace cfg ++ mkdirTrace cfg ++ tu
                ++ [EvNewMG (newArgs cfg (loggerOf cfg) h s)]).
Proof.
  destruct (startup_cases (P := P) cfg env)
    as [(L & ->) | [(L & R & ->) | (L & R & tu & h & s & U & ->)]].
  - left. auto.
  - right. left. auto.
  - right. right. repeat split; auto. exists tu, h, s. auto.
Qed.

(** A call of the start-up found in the trace of a run is a call of its
    start-up. *)
Lemma main_startup_event {MG : Type} {P : Pipeline MG}
    (cfg : Config) (env : Env) (e : Event) :
  isStartupEv e = true ->
  (In e (trace (main cfg env)) <-> In e (trace (startup cfg env))).
Proof.
  intros He.
  destruct (main_trace (P := P) cfg env) as (t1 & t2 & -> & E1 & E2).
  split.
  - intros H. apply in_app_or in H. destruct H as [H | H]; [exact H |].
    apply in_app_or in H. destruct H as [H | H].
    + rewrite Forall_forall in E1. specialize (E1 _ H).
      apply input_event_not_startup in E1. congruence.
    + rewrite Forall_forall in E2. specialize (E2 _ H).
      apply loop_event_not_startup in E2. congruence.
  - intros H. apply in_or_app. now left.
Qed.

Lemma not_rejected_iff (cfg : Config) :
  rejected cfg = false
  <-> ~ (autoPID cfg = false
         /\ chunkInitType cfg <> manifestgenerator.ChunkNoIni).
Proof.
  rewrite <- rejected_iff. destruct (rejected cfg); split; intros H;
    try reflexivity; try discriminate; try (intros X; discriminate X).
  now elim H.
Qed.

Lemma mkdirTrace_iff (cfg : Config) (e : Event) :
  In e (mkdirTrace cfg)
  <-> e = EvMkdirAll (baseOutPath cfg) 484
      /\ (mediaDestinationType cfg = 1 \/ manifestDestinationType cfg = 1).
Proof.
  unfold mkdirTrace, mediachunk.OutputTypes, hls.OutputTypes,
    mediachunk.ChunkOutputModeFile, hls.HlsOutputModeFile.
  destruct (mediaDestinationType cfg =? 1) eqn:A;
    destruct (manifestDestinationType cfg =? 1) eqn:B; simpl;
    rewrite ?Z.eqb_eq, ?Z.eqb_neq in *; intuition congruence.
Qed.

(** X6.  The output directory is created, with mode 0744 (484), when the
    chunks or the manifest go to a file (destination 1) and the start-up
    passes, and in no other case: a directory is created only in a run
    where the log opened and the validation passed, only for such a
    destination, once, and it is the output directory. *)
Theorem X6_output_directory_for_file_destinations
    {MG : Type} {P : Pipeline MG} (cfg : Config) (env : Env) :
  (forall path perm,
     In (EvMkdirAll path perm) (trace (main cfg env)) ->
     path = baseOutPath cfg /\ perm = 484
     /\ (mediaDestinationType cfg = 1 \/ manifestDestinationType cfg = 1)
     /\ logOpens env cfg = true
     /\ ~ (autoPID cfg = false
           /\ chunkInitType cfg <> manifestgenerator.ChunkNoIni)
     /\ exists t t',
          trace (main cfg env) = t ++ EvMkdirAll path perm :: t'
          /\ (forall path' perm', ~ In (EvMkdirAll path' perm') t)
          /\ (forall path' perm', ~ In (EvMkdirAll path' perm') t'))
  /\ (logOpens env cfg = true ->
      ~ (autoPID cfg = false
         /\ chunkInitType cfg <> manifestgenerator.ChunkNoIni) ->
      mediaDestinationType cfg = 1 \/ manifestDestinationType cfg = 1 ->
      In (EvMkdirAll (baseOutPath cfg) 484) (trace (main cfg env))).
Proof.
  assert (NL : forall path perm, ~ In (EvMkdirAll path perm) (logTrace cfg)).
  { intros path perm H. unfold logTrace in H.
    destruct (String.eqb _ _); simpl in H;
      [contradiction | destruct H as [H | []]; discriminate H]. }
  split.
  - intros path perm H.
    destruct (main_trace (P := P) cfg env) as (t1 & t2 & T & E1 & E2).
    assert (L12 : forall path' perm',
               ~ In (EvMkdirAll path' perm') (t1 ++ t2)).
    { intros path' perm' X. apply in_app_or in X. destruct X as [X | X].
      - rewrite Forall_forall in E1. specialize (E1 _ X). discriminate E1.
      - rewrite Forall_forall in E2. specialize (E2 _ X). discriminate E2. }
    rewrite T in H. apply in_app_or in H. destruct H as [H | H];
      [| now apply L12 in H].
    destruct (startup_trace_cases (P := P) cfg env)
      as [(_ & S) | [(_ & _ & S) | (L & R & tu & h & s & U & S)]];
      rewrite S in H, T.
    + destruct H as [H | []]. discriminate H.
    + now apply NL in H.
    + assert (NU : forall path' perm', ~ In (EvMkdirAll path' perm') tu).
      { intros path' perm' X.
        destruct (newUploaders_cases cfg (loggerOf cfg))
          as [(_ & u & U') | [(_ & _ & u & U') | (_ & _ & U')]];
          rewrite U' in U; injection U as <- _ _; simpl in X;
          try contradiction; destruct X as [X | []]; discriminate X. }
      apply in_app_or in H. destruct H as [H | H]; [now apply NL in H |].
      apply in_app_or in H. destruct H as [H | H].
      2:{ apply in_app_or in H. destruct H as [H | H]; [now apply NU in H |].
          destruct H as [H | []]. discriminate H. }
      pose proof H as H'. apply mkdirTrace_iff in H'. destruct H' as [E D].
      injection E as -> ->.
      split; [reflexivity |]. split; [reflexivity |]. split; [exact D |].
      split; [exact L |]. split; [now apply not_rejected_iff |].
      assert (M : mkdirTrace cfg = [EvMkdirAll (baseOutPath cfg) 484]).
      { unfold mkdirTrace in *. destruct (_ || _); [reflexivity |].
        contradiction. }
      exists (logTrace cfg),
             (tu ++ [EvNewMG (newArgs cfg (loggerOf cfg) h s)] ++ t1 ++ t2).
      split; [| split].
      * rewrite T, M. rewrite <- !app_assoc. reflexivity.
      * exact NL.
      * intros path' perm' X. apply in_app_or in X.
        destruct X as [X | X]; [now apply NU in X |].
        destruct X as [X | X]; [discriminate X |]. now apply L12 in X.
  - intros L R D. apply not_rejected_iff in R.
    apply (main_startup_event (P := P) cfg env
             (EvMkdirAll (baseOutPath cfg) 484) eq_refl).
    destruct (startup_passes (P := P) cfg env L R) as (tu & h & s & U & S).
    rewrite S. unfold trace. simpl fst.
    apply in_or_app. right. apply in_or_app. left.
    apply mkdirTrace_iff. auto.
Qed.

(** X6 on the defaults, which write to files; on a manifest sent to HTTP
    with no chunks written, where no directory is created; and on manual
    PIDs with init data, where the start-up exits with status 1 and no
    directory is created although the destinations are files. *)
Lemma X6_output_directory_witness :
  (logOpens (stdinEnv [eofRead]) defaults = true
   /\ ~ (autoPID defaults = false
         /\ chunkInitType defaults <> manifestgenerator.ChunkNoIni)
   /\ (mediaDestinationType defaults = 1
       \/ manifestDestinationType defaults = 1))
  /\ In (EvMkdirAll "./results" 484) (trace defaultRun)
  /\ (exists t t',
        trace defaultRun = t ++ EvMkdirAll "./results" 484 :: t'
        /\ (forall path' perm', ~ In (EvMkdirAll path' perm') t)
        /\ (forall path' perm', ~ In (EvMkdirAll path' perm') t'))
  /\ (forall path perm,
        ~ In (EvMkdirAll path perm)
            (trace (main (P := recorder) httpManifestOnly
                      (stdinEnv [eofRead]))))
  /\ mediaDestinationType manualInitStart = 1
  /\ forall path perm, ~ In (EvMkdirAll path perm) (trace manualInitStartRun).
Proof.
  assert (R : ~ (autoPID defaults = false
                 /\ chunkInitType defaults
                    <> manifestgenerator.ChunkNoIni)).
  { intros [X _]. discriminate X. }
  assert (D : mediaDestinationType defaults = 1
              \/ manifestDestinationType defaults = 1).
  { left. reflexivity. }
  pose proof (proj2 (X6_output_directory_for_file_destinations
                       (P := recorder) defaults (stdinEnv [eofRead]))
                eq_refl R D) as I.
  split; [repeat split; [exact R | exact D] |].
  split; [exact I |].
  split.
  { destruct (proj1 (X6_output_directory_for_file_destinations
                       (P := recorder) defaults (stdinEnv [eofRead]))
                _ _ I) as (_ & _ & _ & _ & _ & O).
    exact O. }
  split.
  { intros path perm H.
    destruct (proj1 (X6_output_directory_for_file_destinations
                       (P := recorder) httpManifestOnly
                       (stdinEnv [eofRead])) path perm H)
      as (_ & _ & [X | X] & _); discriminate X. }
  split; [reflexivity |].
  intros path perm H.
  destruct (proj1 (X6_output_directory_for_file_destinations
                     (P := recorder) manualInitStart
                     (stdinEnv [eofRead])) path perm H)
    as (_ & _ & _ & _ & N & _).
  apply N. split; [reflexivity | discriminate].
Defined.

(** * The uploader that is built *)

(** In a run where the manifest generator is built, the uploaders built
    are those [newUploaders] builds, and they are given to the manifest
    generator. *)
Lemma main_uploader_events {MG : Type} {P : Pipeline MG}
    (cfg : Config) (env : Env) (a : MGArgs) :
  In (EvNewMG a) (trace (main cfg env)) ->
  exists tu,
    newUploaders cfg (loggerOf cfg)
    = (tu, Ret (arg_httpUploader a, arg_s3Uploader a))
    /\ a = newArgs cfg (loggerOf cfg) (arg_httpUploader a) (arg_s3Uploader a)
    /\ forall e, isNewUploader e = true ->
                 (In e (trace (main cfg env)) <-> In e tu).
Proof.
  intros H.
  destruct (main_newMG cfg env a H)
    as (tu & h & s & U & -> & _ & t & t' & T & Nt & Nt').
  exists tu. simpl. split; [exact U |]. split; [reflexivity |].
  intros e He. rewrite T. split.
  - intros I. apply in_app_or in I. destruct I as [I | I].
    { rewrite Forall_forall in Nt. specialize (Nt _ I). congruence. }
    apply in_app_or in I. destruct I as [I | I]; [exact I |].
    destruct I as [I | I].
    { subst e. discriminate He. }
    rewrite Forall_forall in Nt'. specialize (Nt' _ I).
    destruct e; simpl in *; discriminate.
  - intros I. apply in_or_app. right. apply in_or_app. now left.
Qed.

(** X7.  Which uploader the manifest generator is given.  It is given an
    HTTP uploader exactly when the chunks go to HTTP (2 or 3) or the
    manifest goes to HTTP (2); it is given an S3 uploader exactly when
    neither does and the chunks go to S3 (4) or the manifest goes to S3
    (3); and the uploaders built in the run are exactly those it is
    given. *)
Theorem X7_uploader_given_is_the_uploader_built
    {MG : Type} {P : Pipeline MG} (cfg : Config) (env : Env) (a : MGArgs) :
  In (EvNewMG a) (trace (main cfg env)) ->
  ((exists u, arg_httpUploader a = Some u)
   <-> mediaDestinationType cfg = 2 \/ mediaDestinationType cfg = 3
       \/ manifestDestinationType cfg = 2)
  /\ ((exists u, arg_s3Uploader a = Some u)
      <-> ~ (mediaDestinationType cfg = 2 \/ mediaDestinationType cfg = 3
             \/ manifestDestinationType cfg = 2)
          /\ (mediaDestinationType cfg = 4
              \/ manifestDestinationType cfg = 3))
  /\ (forall u, In (EvNewHTTPUploader u) (trace (main cfg env))
                <-> arg_httpUploader a = Some u)
  /\ (forall u, In (EvNewS3Uploader u) (trace (main cfg env))
                <-> arg_s3Uploader a = Some u).
Proof.
  intros H.
  destruct (main_uploader_events cfg env a H) as (tu & U & _ & Ev).
  rewrite <- isHTTPOut_iff, <- isS3Out_iff.
  destruct (newUploaders_cases cfg (loggerOf cfg))
    as [(Hh & u & U') | [(Hh & Hs & u & U') | (Hh & Hs & U')]];
    rewrite U' in U; injection U as <- Eh Es; rewrite <- Eh, <- Es;
    rewrite Hh; try rewrite Hs.
  - split; [split; [reflexivity | exists u; reflexivity] |].
    split; [split; [intros (u' & X); discriminate X
                   | intros (X & _); now elim X] |].
    split; intros u'.
    + rewrite (Ev (EvNewHTTPUploader u') eq_refl). simpl.
      split; [intros [X | []]; now injection X as -> |].
      intros X. injection X as ->. now left.
    + rewrite (Ev (EvNewS3Uploader u') eq_refl). simpl.
      split; [intros [X | []]; discriminate X | intros X; discriminate X].
  - split; [split; [intros (u' & X); discriminate X
                   | intros X; discriminate X] |].
    split; [split; [intros _; split; [intros X; discriminate X | reflexivity]
                   | intros _; exists u; reflexivity] |].
    split; intros u'.
    + rewrite (Ev (EvNewHTTPUploader u') eq_refl). simpl.
      split; [intros [X | []]; discriminate X | intros X; discriminate X].
    + rewrite (Ev (EvNewS3Uploader u') eq_refl). simpl.
      split; [intros [X | []]; now injection X as -> |].
      intros X. injection X as ->. now left.
  - split; [split; [intros (u' & X); discriminate X
                   | intros X; discriminate X] |].
    split; [split; [intros (u' & X); discriminate X
                   | intros (_ & X); discriminate X] |].
    split; intros u'.
    + rewrite (Ev (EvNewHTTPUploader u') eq_refl). simpl.
      split; [contradiction | intros X; discriminate X].
    + rewrite (Ev (EvNewS3Uploader u') eq_refl). simpl.
      split; [contradiction | intros X; discriminate X].
Qed.

(** X7 on a run with all the output to S3. *)
Lemma X7_uploader_witness :
  In (EvNewMG (newArgs s3Output (loggerOf s3Output) None
                 (Some (s3UploaderOf s3Output))))
     (trace s3OutputRun)
  /\ (forall u, In (EvNewS3Uploader u) (trace s3OutputRun)
                <-> Some (s3UploaderOf s3Output) = Some u)
  /\ (forall u, ~ In (EvNewHTTPUploader u) (trace s3OutputRun)).
Proof.
  assert (I : In (EvNewMG (newArgs s3Output (loggerOf s3Output) None
                             (Some (s3UploaderOf s3Output))))
                (trace s3OutputRun)).
  { simpl. right. left. reflexivity. }
  split; [exact I |].
  destruct (X7_uploader_given_is_the_uploader_built (P := recorder)
              s3Output (stdinEnv [eofRead]) _ I) as (_ & _ & Hh & Hs).
  split; [exact Hs |].
  intros u X. apply Hh in X. discriminate X.
Defined.

(** X8.  The S3 uploader is built from the flags of the bucket, the
    region, the time-out and the ACL.  It is given the id and the secret of
    the flags when both are set; when either is empty it is given neither:
    credentials that are not valid, with an empty id and an empty
    secret. *)
Theorem X8_s3_credentials_need_id_and_secret
    {MG : Type} {P : Pipeline MG} (cfg : Config) (env : Env)
    (u : S3Uploader) :
  In (EvNewS3Uploader u) (trace (main cfg env)) ->
  s3_bucket u = s3Bucket cfg
  /\ s3_region u = awsRegion cfg
  /\ s3_uploadTimeOut u = s3UploadTimeOut cfg
  /\ s3_isPublicRead u = s3IsPublicRead cfg
  /\ (awsID cfg <> ""%string /\ awsSecret cfg <> ""%string ->
      s3_creds u = {| Valid := true; AWSId := awsID cfg;
                      AWSSecret := awsSecret cfg |})
  /\ (awsID cfg = ""%string \/ awsSecret cfg = ""%string ->
      s3_creds u = {| Valid := false; AWSId := ""; AWSSecret := "" |}).
Proof.
  intros H.
  apply (main_startup_event (P := P) cfg env (EvNewS3Uploader u) eq_refl)
    in H.
  assert (K : In (EvNewS3Uploader u)
                (trace (newUploaders cfg (loggerOf cfg)))).
  { destruct (startup_trace_cases (P := P) cfg env)
      as [(_ & S) | [(_ & _ & S) | (_ & _ & tu & h & s & U & S)]];
      rewrite S in H.
    - destruct H as [H | []]. discriminate H.
    - unfold logTrace in H. destruct (String.eqb _ _); simpl in H;
        [contradiction | destruct H as [H | []]; discriminate H].
    - rewrite U. unfold trace. simpl fst.
      apply in_app_or in H. destruct H as [H | H].
      { unfold logTrace in H. destruct (String.eqb _ _); simpl in H;
          [contradiction | destruct H as [H | []]; discriminate H]. }
      apply in_app_or in H. destruct H as [H | H].
      { apply mkdirTrace_iff in H. destruct H as [E _]. discriminate E. }
      apply in_app_or in H. destruct H as [H | H]; [exact H |].
      destruct H as [H | []]. discriminate H. }
  clear H. unfold newUploaders, trace in K.
  destruct (isHTTPOut cfg); simpl in K.
  { destruct K as [K | []]. discriminate K. }
  destruct (isS3Out cfg); simpl in K; [| contradiction].
  destruct K as [K | []]. injection K as <-. simpl.
  repeat split.
  - intros [A B]. unfold awsCredsOf.
    apply String.eqb_neq in A. apply String.eqb_neq in B.
    now rewrite A, B.
  - intros [A | B]; unfold awsCredsOf.
    + rewrite A. reflexivity.
    + rewrite B. simpl. now rewrite andb_false_r.
Qed.

(** X8 with an id and no secret, and with both. *)
Lemma X8_s3_credentials_witness :
  (In (EvNewS3Uploader (s3UploaderOf s3OutputIdOnly))
      (trace (main (P := recorder) s3OutputIdOnly (stdinEnv [eofRead])))
   /\ awsID s3OutputIdOnly = "AKIAEXAMPLE"%string
   /\ awsSecret s3OutputIdOnly = ""%string)
  /\ s3_creds (s3UploaderOf s3OutputIdOnly)
     = {| Valid := false; AWSId := ""; AWSSecret := "" |}
  /\ s3_creds (s3UploaderOf s3OutputWithKeys)
     = {| Valid := true; AWSId := "AKIAEXAMPLE"; AWSSecret := "secret" |}.
Proof.
  assert (I : In (EvNewS3Uploader (s3UploaderOf s3OutputIdOnly))
                (trace (main (P := recorder) s3OutputIdOnly
                          (stdinEnv [eofRead])))).
  { simpl. left. reflexivity. }
  assert (J : In (EvNewS3Uploader (s3UploaderOf s3OutputWithKeys))
                (trace (main (P := recorder) s3OutputWithKeys
                          (stdinEnv [eofRead])))).
  { simpl. left. reflexivity. }
  split; [repeat split; exact I |].
  split.
  - destruct (X8_s3_credentials_need_id_and_secret (P := recorder)
                s3OutputIdOnly (stdinEnv [eofRead]) _ I)
      as (_ & _ & _ & _ & _ & N).
    apply N. right. reflexivity.
  - destruct (X8_s3_credentials_need_id_and_secret (P := recorder)
                s3OutputWithKeys (stdinEnv [eofRead]) _ J)
      as (_ & _ & _ & _ & Y & _).
    apply Y. split; discriminate.
Defined.

(** * The logger *)

(** X9.  One logger serves the run.  The manifest generator is given the
    logger that [configureLogger] returned, and the uploader it is given
    was built with the same logger.  The level of this logger is Error
    with -verbose and Info without; its output goes to the log file as
    well as to standard output exactly when a log path is given. *)
Theorem X9_one_logger_for_generator_and_uploader
    {MG : Type} {P : Pipeline MG} (cfg : Config) (env : Env) (a : MGArgs) :
  In (EvNewMG a) (trace (main cfg env)) ->
  configureLogger env (verbose cfg) (logPath cfg)
  = (logTrace cfg, Ret (arg_log a))
  /\ lg_level (arg_log a) = (if verbose cfg then ErrorLevel else InfoLevel)
  /\ (logPath cfg = ""%string -> lg_file (arg_log a) = None)
  /\ (logPath cfg <> ""%string -> lg_file (arg_log a) = Some (logPath cfg))
  /\ (forall u, arg_httpUploader a = Some u -> hu_log u = arg_log a)
  /\ (forall u, arg_s3Uploader a = Some u -> s3_log u = arg_log a).
Proof.
  intros H.
  assert (L : logOpens env cfg = true).
  { apply (main_startup_event (P := P) cfg env (EvNewMG a) eq_refl) in H.
    destruct (startup_trace_cases (P := P) cfg env)
      as [(_ & S) | [(_ & _ & S) | (L & _)]]; [| | exact L];
      rewrite S in H.
    - destruct H as [H | []]. discriminate H.
    - unfold logTrace in H. destruct (String.eqb _ _); simpl in H;
        [contradiction | destruct H as [H | []]; discriminate H]. }
  destruct (main_uploader_events cfg env a H) as (tu & U & A & _).
  rewrite A. simpl arg_log. simpl arg_httpUploader. simpl arg_s3Uploader.
  split; [now apply configureLogger_opens |].
  split; [reflexivity |].
  split; [intros E; unfold loggerOf; simpl; now rewrite E |].
  split.
  { intros E. unfold loggerOf. simpl. apply String.eqb_neq in E.
    now rewrite E. }
  unfold newUploaders in U.
  destruct (isHTTPOut cfg); [| destruct (isS3Out cfg)];
    simpl in U; injection U as _ Eh Es; rewrite <- Eh, <- Es;
    split; intros u X; try discriminate X; injection X as <-; reflexivity.
Qed.

(** X9 on a run with -apids left on and the manifest sent to HTTP. *)
Lemma X9_one_logger_witness :
  In (EvNewMG (newArgs s3MediaHTTPManifest (loggerOf s3MediaHTTPManifest)
                 (Some defaultHTTPUploader) None))
     (trace s3MediaHTTPManifestRun)
  /\ lg_level (loggerOf s3MediaHTTPManifest) = InfoLevel
  /\ hu_log defaultHTTPUploader = loggerOf s3MediaHTTPManifest.
Proof.
  assert (I : In (EvNewMG (newArgs s3MediaHTTPManifest
                             (loggerOf s3MediaHTTPManifest)
                             (Some defaultHTTPUploader) None))
                (trace s3MediaHTTPManifestRun)).
  { simpl. right. left. reflexivity. }
  split; [exact I |].
  destruct (X9_one_logger_for_generator_and_uploader (P := recorder)
              s3MediaHTTPManifest (stdinEnv [eofRead]) _ I)
    as (_ & Lv & _ & _ & Hh & _).
  split; [exact Lv |]. exact (Hh _ eq_refl).
Defined.

(** * The manifest generator through the loop *)

Lemma emissionsOf_app (t1 t2 : list Event) :
  emissionsOf (t1 ++ t2) = emissionsOf t1 ++ emissionsOf t2.
Proof. unfold emissionsOf. apply flat_map_app. Qed.

Lemma emissionsOf_cons (e : Event) (t : list Event) :
  emissionsOf (e :: t)
  = match e with EvEmission x => [x] | _ => [] end ++ emissionsOf t.
Proof. reflexivity. Qed.

Lemma emissionsOf_emissions (es : list Emission) :
  emissionsOf (map EvEmission es) = es.
Proof. induction es as [| e es IH]; simpl; [reflexivity |]. now f_equal. Qed.

Section Threading.

Context {MG : Type} {P : Pipeline MG}.

(** Through reads of data the loop does to the manifest generator what
    [feedAll] does with their slices. *)
Lemma feed_feedAll (src : InputSrc) (pre : list ReadResult) (mg : MG) :
  snd (feed src pre mg) = fst (feedAll mg (map rr_bytes pre))
  /\ emissionsOf (fst (feed src pre mg))
     = snd (feedAll mg (map rr_bytes pre)).
Proof.
  revert mg. induction pre as [| rd pre IH]; intros mg; [split; reflexivity |].
  simpl. destruct (AddData mg (rr_bytes rd)) as [mg' es].
  specialize (IH mg'). destruct IH as [IH1 IH2].
  destruct (feed src pre mg') as [t mg''].
  destruct (feedAll mg' (map rr_bytes pre)) as [mg3 es'].
  cbn [fst snd] in *. split; [exact IH1 |].
  rewrite !emissionsOf_cons, emissionsOf_app, emissionsOf_emissions, IH2.
  reflexivity.
Qed.

(** X10.  The loop works on one manifest generator.  When the reads [pre]
    return data and the next read returns zero bytes with the end of the
    stream, the manifest generator the loop leaves is the result of
    [Close] on the manifest generator that the calls of [AddData] on the
    slices of [pre], each on the result of the call before, have left; and
    the deliveries of the run are those of these calls, in this order,
    those of [Close] last. *)
Theorem X10_loop_threads_one_generator
    (src : InputSrc) (pre : list ReadResult) (last : ReadResult)
    (rest : list ReadResult) (mg : MG) :
  Forall returnsData pre ->
  returnsEOF last ->
  result (loop src (pre ++ last :: rest) mg)
  = Ret (fst (Close (fst (feedAll mg (map rr_bytes pre)))))
  /\ emissionsOf (trace (loop src (pre ++ last :: rest) mg))
     = snd (feedAll mg (map rr_bytes pre))
       ++ snd (Close (fst (feedAll mg (map rr_bytes pre)))).
Proof.
  intros Hp Hl. apply data_reads in Hp. apply eof_not_data in Hl.
  destruct Hl as [E _].
  rewrite (loop_feed src pre (last :: rest) mg Hp).
  rewrite loop_eof by exact E.
  destruct (feed_feedAll src pre mg) as [F1 F2].
  unfold result, trace. cbn [fst snd]. rewrite F1. split; [reflexivity |].
  rewrite emissionsOf_app, F2, !emissionsOf_cons, emissionsOf_emissions.
  reflexivity.
Qed.

End Threading.

(** X10 on the pipeline with a stuck sink, which counts the calls of
    [AddData]: three calls and three failed deliveries, then the failed
    delivery of [Close]. *)
Lemma X10_loop_threads_witness :
  (Forall returnsData sampleReads /\ returnsEOF eofRead)
  /\ result (loop (P := lossy) Stdin (sampleReads ++ eofRead :: []) O)
     = Ret 3%nat
  /\ List.length
       (emissionsOf
          (trace (loop (P := lossy) Stdin (sampleReads ++ eofRead :: [])
                    O)))
     = 4%nat.
Proof.
  assert (D : Forall returnsData sampleReads).
  { unfold sampleReads, returnsData. all_return_data. }
  assert (E : returnsEOF eofRead).
  { split; reflexivity. }
  split; [auto |].
  destruct (X10_loop_threads_one_generator (P := lossy) Stdin sampleReads
              eofRead [] O D E) as [R Em].
  split; [exact R |]. rewrite Em. reflexivity.
Defined.

(** * The order of the calls *)

(** The trace of a run: that of its start-up alone when the start-up ends
    the process; else that of its start-up, that of the opening of the
    input, and calls of the loop. *)
Lemma main_trace_parts {MG : Type} {P : Pipeline MG}
    (cfg : Config) (env : Env) :
  (exists o, result (startup cfg env) = Halt o
             /\ trace (main cfg env) = trace (startup cfg env))
  \/ (exists mg t2,
        result (startup cfg env) = Ret mg
        /\ trace (main cfg env)
           = trace (startup cfg env) ++ trace (openInput cfg env) ++ t2
        /\ Forall (fun e => isLoopEv e = true) t2).
Proof.
  destruct (startup cfg env) as [t0 [mg | o]] eqn:S.
  - right. exists mg.
    destruct (openInput cfg env) as [t1 [r | o]] eqn:I.
    + exists (trace (ingest r mg)).
      rewrite (main_ingests cfg env _ _ _ _ S I).
      repeat split. apply ingest_events.
    + exists []. rewrite (main_input_halts cfg env _ _ _ _ S I).
      unfold trace. simpl. rewrite app_nil_r. repeat split. constructor.
  - left. exists o. rewrite (main_startup_halts cfg env _ _ S). auto.
Qed.

(** X11.  The manifest generator is built at most once in a run, and
    whatever the process listens on, accepts, reads, forwards or closes
    comes after it was built. *)
Theorem X11_generator_is_built_once_before_the_input
    {MG : Type} {P : Pipeline MG} (cfg : Config) (env : Env) :
  (List.length (filter isNewMG (trace (main cfg env))) <= 1)%nat
  /\ forall e,
       In e (trace (main cfg env)) ->
       isInputEv e = true \/ isLoopEv e = true ->
       exists a t t',
         trace (main cfg env) = t ++ EvNewMG a :: t'
         /\ In e t'
         /\ Forall (fun x => isNewMG x = false) t
         /\ Forall (fun x => isNewMG x = false) t'.
Proof.
  assert (NL : Forall (fun x => isNewMG x = false) (logTrace cfg)).
  { unfold logTrace. destruct (String.eqb _ _); repeat constructor. }
  assert (NM : Forall (fun x => isNewMG x = false) (mkdirTrace cfg)).
  { unfold mkdirTrace. destruct (_ || _); repeat constructor. }
  assert (NU : Forall (fun x => isNewMG x = false)
                 (trace (newUploaders cfg (loggerOf cfg)))).
  { destruct (newUploaders_cases cfg (loggerOf cfg))
      as [(_ & u & ->) | [(_ & _ & u & ->) | (_ & _ & ->)]];
      repeat constructor. }
  assert (NI : forall t, Forall (fun e => isInputEv e = true) t ->
                         Forall (fun x => isNewMG x = false) t).
  { intros t Ht. eapply Forall_impl; [| exact Ht].
    intros x Hx. destruct x; simpl in *; auto; discriminate. }
  assert (NP : forall t, Forall (fun e => isLoopEv e = true) t ->
                         Forall (fun x => isNewMG x = false) t).
  { intros t Ht. eapply Forall_impl; [| exact Ht].
    intros x Hx. destruct x; simpl in *; auto; discriminate. }
  assert (Z0 : forall t, Forall (fun x => isNewMG x = false) t ->
                         filter isNewMG t = []).
  { induction 1 as [| x t Hx _ IH]; simpl; [reflexivity |].
    now rewrite Hx. }
  pose proof (startup_events (P := P) cfg env) as SE.
  pose proof (openInput_events cfg env) as E1.
  destruct (main_trace_parts (P := P) cfg env)
    as [(o & S & T) | (mg & t2 & S & T & E2)];
    destruct (startup_cases (P := P) cfg env)
      as [(L & S') | [(L & R & S') | (L & R & tu & h & s & U & S')]];
    rewrite S' in S, T, SE; unfold result, trace in S, T, SE, E1 |- *;
    cbn [fst snd] in S, T, SE; try discriminate S; rewrite T.
  - split; [simpl; lia |].
    intros e [X | []] C. subst e. destruct C; discriminate.
  - rewrite (Z0 _ NL). split; [simpl; lia |].
    intros e X C. rewrite Forall_forall in SE.
    specialize (SE _ X). apply startup_event_not_later in SE.
    destruct SE, C; congruence.
  - rewrite U in NU. unfold trace in NU. simpl in NU. split.
    + rewrite !filter_app, (Z0 _ NL), (Z0 _ NM), (Z0 _ NU),
        (Z0 _ (NI _ E1)), (Z0 _ (NP _ E2)).
      simpl. lia.
    + intros e X C.
      exists (newArgs cfg (loggerOf cfg) h s),
             (logTrace cfg ++ mkdirTrace cfg ++ tu),
             (fst (openInput cfg env) ++ t2).
      split; [now rewrite <- !app_assoc |].
      split.
      { apply in_app_or in X. destruct X as [X | X]; [| exact X].
        rewrite Forall_forall in SE.
        specialize (SE _ X). apply startup_event_not_later in SE.
        destruct SE, C; congruence. }
      split.
      { repeat (apply Forall_app; split); assumption. }
      apply Forall_app. split; [now apply NI | now apply NP].
Qed.

(** X11 on the defaults and an input that ends at once: the read comes
    after the manifest generator was built. *)
Lemma X11_generator_built_once_witness :
  (In (EvRead Stdin eofRead) (trace defaultRun)
   /\ (isInputEv (EvRead Stdin eofRead) = true
       \/ isLoopEv (EvRead Stdin eofRead) = true))
  /\ exists a t t',
       trace defaultRun = t ++ EvNewMG a :: t'
       /\ In (EvRead Stdin eofRead) t'
       /\ Forall (fun x => isNewMG x = false) t
       /\ Forall (fun x => isNewMG x = false) t'.
Proof.
  assert (I : In (EvRead Stdin eofRead) (trace defaultRun)).
  { simpl. right. right. left. reflexivity. }
  assert (C : isInputEv (EvRead Stdin eofRead) = true
              \/ isLoopEv (EvRead Stdin eofRead) = true).
  { right. reflexivity. }
  split; [split; [exact I | exact C] |].
  exact (proj2 (X11_generator_is_built_once_before_the_input
                  (P := recorder) defaults (stdinEnv [eofRead]))
           _ I C).
Defined.

(** * The address listened on *)

(** [Itoa] writes a number that reads back as the same number. *)
Lemma Itoa_parses (z : Z) :
  NilZero.int_of_string (Itoa z) = Some (Z.to_int z).
Proof.
  unfold Itoa. apply NilZero.isi.
  - destruct z as [| p | p]; simpl; try discriminate.
    intros X. injection X as X. now apply Unsigned.to_uint_nonnil in X.
  - destruct z as [| p | p]; simpl; try discriminate.
    intros X. injection X as X. now apply Unsigned.to_uint_nonnil in X.
Qed.

Lemma Itoa_inj (z z' : Z) : Itoa z = Itoa z' -> z = z'.
Proof.
  intros H. apply DecimalZ.to_int_inj.
  pose proof (Itoa_parses z) as A. pose proof (Itoa_parses z') as B.
  rewrite H in A. rewrite A in B. now injection B.
Qed.

(** The calls of the opening of the input. *)
Lemma openInput_trace_cases (cfg : Config) (env : Env) :
  (inputType cfg <> 2 /\ trace (openInput cfg env) = [])
  \/ (inputType cfg = 2
      /\ (trace (openInput cfg env)
          = [EvListen "tcp" (String.append ":" (Itoa (localPort cfg)))]
          \/ exists ln,
               trace (openInput cfg env)
               = [EvListen "tcp" (String.append ":" (Itoa (localPort cfg)));
                  EvAccept ln])).
Proof.
  unfold openInput. destruct (inputType cfg =? 2) eqn:T.
  - right. apply Z.eqb_eq in T. split; [exact T |].
    destruct (netListen env "tcp"
                (String.append ":" (Itoa (localPort cfg)))) as [ln |].
    + right. exists ln. reflexivity.
    + left. reflexivity.
  - left. apply Z.eqb_neq in T. auto.
Qed.

(** X12.  The process listens only with -inputType=2, only on the network
    "tcp" and only on the address made of a colon and the decimal notation
    of the local port.  This address names the port: the notation reads
    back as the port, and two configurations listen on the same address
    only when their local ports are equal. *)
Theorem X12_listen_address_names_the_port {MG : Type} {P : Pipeline MG}
    (cfg : Config) (env : Env) :
  (forall network address,
     In (EvListen network address) (trace (main cfg env)) ->
     inputType cfg = 2
     /\ network = "tcp"%string
     /\ address = String.append ":" (Itoa (localPort cfg)))
  /\ NilZero.int_of_string (Itoa (localPort cfg))
     = Some (Z.to_int (localPort cfg))
  /\ (forall cfg',
        String.append ":" (Itoa (localPort cfg))
        = String.append ":" (Itoa (localPort cfg')) ->
        localPort cfg = localPort cfg').
Proof.
  split; [| split].
  - intros network address H.
    assert (K : In (EvListen network address) (trace (openInput cfg env))).
    { pose proof (startup_events (P := P) cfg env) as SE.
      rewrite Forall_forall in SE.
      destruct (main_trace_parts (P := P) cfg env)
        as [(o & _ & T) | (mg & t2 & _ & T & E2)]; rewrite T in H.
      - specialize (SE _ H). simpl in SE. discriminate SE.
      - apply in_app_or in H. destruct H as [H | H].
        { specialize (SE _ H). simpl in SE. discriminate SE. }
        apply in_app_or in H. destruct H as [H | H]; [exact H |].
        rewrite Forall_forall in E2. specialize (E2 _ H). simpl in E2.
        discriminate E2. }
    destruct (openInput_trace_cases cfg env)
      as [(_ & E) | (T & [E | (ln & E)])]; rewrite E in K.
    + contradiction.
    + destruct K as [K | []]. inversion K. auto.
    + destruct K as [K | [K | []]]; [| discriminate K].
      inversion K. auto.
  - apply Itoa_parses.
  - intros cfg' H. injection H as H. now apply Itoa_inj.
Qed.

(** X12 on -inputType=2 with the default port. *)
Lemma X12_listen_address_witness :
  In (EvListen "tcp" ":2002")
     (trace (main (P := recorder) tcpInput
               (tcpEnv (Some 7%nat) (sampleReads ++ [eofRead]))))
  /\ inputType tcpInput = 2
  /\ ":2002"%string = String.append ":" (Itoa (localPort tcpInput))
  /\ (String.append ":" (Itoa (localPort tcpInput))
      = String.append ":" (Itoa (localPort defaults))
      /\ localPort tcpInput = localPort defaults).
Proof.
  assert (I : In (EvListen "tcp" ":2002")
                (trace (main (P := recorder) tcpInput
                          (tcpEnv (Some 7%nat)
                             (sampleReads ++ [eofRead]))))).
  { simpl. right. right. left. reflexivity. }
  split; [exact I |].
  destruct (X12_listen_address_names_the_port (P := recorder) tcpInput
              (tcpEnv (Some 7%nat) (sampleReads ++ [eofRead])))
    as (Ev & _ & Inj).
  destruct (Ev _ _ I) as (T & _ & A).
  split; [exact T |]. split; [exact A |].
  split; [reflexivity |]. exact (Inj defaults eq_refl).
Defined.
